(** * babel-plugin-inline-debugger: the instrumentation transform and the
    runtime monitor, embedded from [src/babel-plugin-inline-debugger.ts]
    (the Babel plugin) and the runtime class [InlineDebuggerRuntime] that
    follows it in the same source file.

    Layout: strings; the syntax tree and the marker scanner; the visitors;
    runtime values and the serializer; the store and the monitor; then the
    theorems, component by component. *)

From Stdlib Require Import List String Ascii ZArith Bool Arith Lia.
From Stdlib Require Import Numbers.DecimalString.
Import ListNotations.
Local Open Scope string_scope.
Local Open Scope list_scope.

Set Implicit Arguments.

(* ================================================================== *)
(** ** Strings *)

(** [s.startsWith(p)]. *)
Definition startsWith (s p : string) : bool := String.prefix p s.

(** White space as [String.prototype.trim] sees it, on the ASCII range:
    TAB, LF, VT, FF, CR and SPACE. *)
Definition isWhiteSpace (c : ascii) : bool :=
  let n := nat_of_ascii c in
  ((9 <=? n)%nat && (n <=? 13)%nat) || (n =? 32)%nat.

Fixpoint trimStart (s : string) : string :=
  match s with
  | String c r => if isWhiteSpace c then trimStart r else s
  | EmptyString => EmptyString
  end.

Fixpoint rev_string (s acc : string) : string :=
  match s with
  | EmptyString => acc
  | String c r => rev_string r (String c acc)
  end.

Definition trimEnd (s : string) : string :=
  rev_string (trimStart (rev_string s "")) "".

(** [s.trim()]; only the spec's wording of the scanner uses it, the source
    never trims. *)
Definition trim (s : string) : string := trimEnd (trimStart s).

(* ================================================================== *)
(** ** The syntax tree the visitors see *)

(** A comment attached to a node by the parser; [value] is the text between
    the comment delimiters, untouched. *)
Record Comment : Type := mkComment { value : string }.

(** Babel nodes.  Every node carries [leadingComments], [trailingComments]
    (either may be absent) and the start line of [loc] (absent on nodes made
    by the builders).  Only the node types the modelled visitors read or
    build have a constructor of their own; any other node is [OtherNode]. *)
Inductive Node : Type :=
| mkNode (leading trailing : option (list Comment)) (line : option Z)
         (shape : Shape)
with Shape : Type :=
| Identifier (name : string)
| StringLiteral (s : string)
| NumericLiteral (n : Z)
| ObjectProperty (key val : Node)
| ObjectExpression (properties : list Node)
| ArrayExpression (elements : list Node)
| ArrowFunctionExpression (params : list Node) (body : Node)
| BlockStatement (body : list Node)
| ReturnStatement (argument : option Node)
| ThrowStatement (argument : Node)
| ExpressionStatement (expression : Node)
| SequenceExpression (expressions : list Node)
| CallExpression (callee : Node) (arguments : list Node)
| MemberExpression (object property : Node)
| NewExpression (callee : Node) (arguments : list Node)
| OtherNode (type : string) (children : list Node).

Definition leadingComments (n : Node) : option (list Comment) :=
  match n with mkNode l _ _ _ => l end.
Definition trailingComments (n : Node) : option (list Comment) :=
  match n with mkNode _ t _ _ => t end.
Definition loc_start_line (n : Node) : option Z :=
  match n with mkNode _ _ l _ => l end.
Definition shapeOf (n : Node) : Shape :=
  match n with mkNode _ _ _ s => s end.

(** A traversal path: the node, its parent (absent at the root) and the file
    name the hub knows ([path.hub?.file?.opts?.filename]). *)
Record Path : Type := mkPath {
  node : Node;
  parent : option Node;
  filename : option string
}.

(** [x || []] on a possibly absent array. *)
Definition orEmpty (A : Type) (o : option (list A)) : list A :=
  match o with Some l => l | None => [] end.

(** A node made by one of the [t.*] builders: no comments, no location. *)
Definition built (s : Shape) : Node := mkNode None None None s.

Module t.
Definition identifier (name : string) : Node := built (Identifier name).
Definition stringLiteral (s : string) : Node := built (StringLiteral s).
Definition numericLiteral (n : Z) : Node := built (NumericLiteral n).
Definition objectProperty (k v : Node) : Node := built (ObjectProperty k v).
Definition objectExpression (ps : list Node) : Node :=
  built (ObjectExpression ps).
Definition arrowFunctionExpression (ps : list Node) (b : Node) : Node :=
  built (ArrowFunctionExpression ps b).
Definition blockStatement (b : list Node) : Node := built (BlockStatement b).
Definition returnStatement (a : Node) : Node :=
  built (ReturnStatement (Some a)).
Definition throwStatement (a : Node) : Node := built (ThrowStatement a).
Definition expressionStatement (e : Node) : Node :=
  built (ExpressionStatement e).
Definition sequenceExpression (es : list Node) : Node :=
  built (SequenceExpression es).
Definition callExpression (c : Node) (args : list Node) : Node :=
  built (CallExpression c args).
Definition isCallExpression (n : Node) : bool :=
  match shapeOf n with CallExpression _ _ => true | _ => false end.
End t.

(* ------------------------------------------------------------------ *)
(** *** Marker scanner *)

(** The comments [hasWorksheetComment] looks at, in its order: the node's
    leading and trailing ones, then the parent's. *)
Definition allNodeComments (p : Path) : list Comment :=
  let allComments :=
    orEmpty (leadingComments (node p)) ++ orEmpty (trailingComments (node p)) in
  let parentComments :=
    match parent p with
    | Some q => orEmpty (leadingComments q) ++ orEmpty (trailingComments q)
    | None => []
    end in
  allComments ++ parentComments.

Definition hasWorksheetComment (p : Path) : bool :=
  existsb (fun comment => startsWith (value comment) "?") (allNodeComments p).

(** The scanner as the specification words it: the same comments, but the
    prefix test is made on the trimmed text. *)
Definition isSelected_spec (p : Path) : bool :=
  existsb (fun comment => startsWith (trim (value comment)) "?")
          (allNodeComments p).

(* ------------------------------------------------------------------ *)
(** *** Building the monitor call *)

Definition getFilePath (p : Path) : string :=
  match filename p with
  | Some f => if String.eqb f "" then "unknown" else f
  | None => "unknown"
  end.

Definition lineOf (p : Path) : Z :=
  match loc_start_line (node p) with Some l => l | None => 0%Z end.

(** [createWatchCall(path, type, variable?)]: the call
    [inlineDebuggerWatch({type, filePath, line, called: () => {}})], with a
    fifth property [variable] when a non-empty name is given. *)
Definition createWatchCall (p : Path) (type : string)
    (variable : option string) : Node :=
  let properties :=
    [ t.objectProperty (t.identifier "type") (t.stringLiteral type);
      t.objectProperty (t.identifier "filePath")
                       (t.stringLiteral (getFilePath p));
      t.objectProperty (t.identifier "line") (t.numericLiteral (lineOf p));
      t.objectProperty (t.identifier "called")
        (t.arrowFunctionExpression [] (t.blockStatement [])) ] in
  let properties :=
    match variable with
    | Some v => if String.eqb v "" then properties
                else properties ++
                     [t.objectProperty (t.identifier "variable")
                                       (t.stringLiteral v)]
    | None => properties
    end in
  t.callExpression (t.identifier "inlineDebuggerWatch")
                   [built (ObjectExpression properties)].

(** [a[i] = f(a[i])] on a list; out of range nothing changes (the visitors
    only ever write index 3 of a four- or five-element list). *)
Fixpoint updateAt (A : Type) (i : nat) (f : A -> A) (l : list A) : list A :=
  match l, i with
  | [], _ => []
  | x :: r, O => f x :: r
  | x :: r, S j => x :: updateAt j f r
  end.

Definition setPropertyValue (v : Node) (prop : Node) : Node :=
  match prop with
  | mkNode l tr ln (ObjectProperty k _) => mkNode l tr ln (ObjectProperty k v)
  | other => other
  end.

(** The three lines every visitor repeats:
    [watchCall.arguments[0].properties[3].value = thunk]. *)
Definition setCalled (watchCall thunk : Node) : Node :=
  match watchCall with
  | mkNode l tr ln
      (CallExpression callee
         (mkNode l' tr' ln' (ObjectExpression ps) :: rest)) =>
      mkNode l tr ln
        (CallExpression callee
           (mkNode l' tr' ln'
              (ObjectExpression (updateAt 3 (setPropertyValue thunk) ps))
            :: rest))
  | other => other
  end.

(** [() => { return e; }]. *)
Definition returningThunk (e : Node) : Node :=
  t.arrowFunctionExpression [] (t.blockStatement [t.returnStatement e]).

(* ------------------------------------------------------------------ *)
(** *** Visitors

    The body of a visitor, for one call of it: [None] when it leaves its node
    alone, [Some n] when it calls [path.replaceWith(n)] with the node [n] it
    has built.  What [replaceWith] then does with [n] (the comments [n]
    inherits, the new visit of the path) is [replaceWith] and
    [traverseExpressionStatement] further down. *)

Definition visitExpressionStatement (p : Path) : option Node :=
  if negb (hasWorksheetComment p) then None
  else match shapeOf (node p) with
       | ExpressionStatement expression =>
           if t.isCallExpression expression then None
           else
             let watchCall :=
               setCalled (createWatchCall p "expression" None)
                         (returningThunk expression) in
             Some (t.expressionStatement
                     (t.sequenceExpression [watchCall; expression]))
       | _ => None
       end.

Definition visitThrowStatement (p : Path) : option Node :=
  if negb (hasWorksheetComment p) then None
  else match shapeOf (node p) with
       | ThrowStatement argument =>
           let watchCall :=
             setCalled (createWatchCall p "throw" None)
                       (returningThunk argument) in
           Some (t.blockStatement
                   [t.expressionStatement watchCall;
                    t.throwStatement argument])
       | _ => None
       end.

(* ================================================================== *)
(** ** Runtime values

    What a deferred computation can hand to the monitor.  Composite values
    live in a heap and are named by their location, so that two edges can
    reach one object and an object can reach itself.  Numbers are integers;
    strings are sequences of ASCII characters.  Function values are opaque:
    the runtime only ever reads their source text ([value.toString()]).
    These values are data: none has a getter or a [toJSON] method, none is a
    proxy or a symbol ([hostValue], further down, has some of those). *)

Definition loc := nat.

Inductive val : Type :=
| VUndefined
| VNull
| VBool (b : bool)
| VNum (n : Z)
| VBigInt (n : Z)
| VStr (s : string)
| VFun (src : string)
| VRef (l : loc)
| VPromise (p : nat).

(** Heap objects, each with its enumerable own properties in the order the
    engine enumerates them.  An [Error] object keeps [message] apart: it is
    an own property, but not an enumerable one. *)
Inductive object : Type :=
| Obj (props : list (string * val))
| Arr (elems : list val)
| Err (message : string) (props : list (string * val)).

Definition heap := list object.

(** A location outside the heap reads as the empty object; a value built by
    a program never mentions one. *)
Definition deref (h : heap) (l : loc) : object := nth l h (Obj []).

Fixpoint lookup (k : string) (ps : list (string * val)) : val :=
  match ps with
  | [] => VUndefined
  | (k', v) :: r => if String.eqb k k' then v else lookup k r
  end.

(** [ToBoolean]. *)
Definition truthy (v : val) : bool :=
  match v with
  | VUndefined | VNull => false
  | VBool b => b
  | VNum n | VBigInt n => negb (Z.eqb n 0)
  | VStr s => negb (String.eqb s "")
  | VFun _ | VRef _ | VPromise _ => true
  end.

(** [v?.then]: a native promise inherits the method (written here as an
    opaque function value); a plain or error object has it only as a
    property of its own; every other value gives [undefined]. *)
Definition get_then (h : heap) (v : val) : val :=
  match v with
  | VPromise _ => VFun "function then() { [native code] }"
  | VRef l => match deref h l with
              | Obj ps | Err _ ps => lookup "then" ps
              | Arr _ => VUndefined
              end
  | _ => VUndefined
  end.

(** [v.message]; [None] is the [TypeError] that reading a property of
    [null] or [undefined] raises. *)
Definition get_message (h : heap) (v : val) : option val :=
  match v with
  | VUndefined | VNull => None
  | VRef l => match deref h l with
              | Err m _ => Some (VStr m)
              | Obj ps => Some (lookup "message" ps)
              | Arr _ => Some VUndefined
              end
  | _ => Some VUndefined
  end.

(* ------------------------------------------------------------------ *)
(** *** Regular expressions

    The two patterns of the runtime are sequences of literal characters and
    greedy stars over a character class, so that is the fragment embedded:
    a backtracking matcher that tries the longest run of a star first, and a
    search that returns the leftmost match, as [String.prototype.match]
    without the [g] flag does.  [match[0]] is the matched text. *)

Inductive rx : Type :=
| RChar (c : ascii)
| RStar (cls : ascii -> bool).

Fixpoint starGreedy (cls : ascii -> bool) (k : string -> option string)
    (s : string) : option string :=
  match s with
  | String d s' =>
      if cls d then
        match starGreedy cls k s' with
        | Some m => Some (String d m)
        | None => k s
        end
      else k s
  | EmptyString => k s
  end.

Fixpoint matchHere (r : list rx) (s : string) : option string :=
  match r with
  | [] => Some ""
  | RChar c :: r' =>
      match s with
      | String d s' =>
          if Ascii.eqb c d then option_map (String d) (matchHere r' s')
          else None
      | EmptyString => None
      end
  | RStar cls :: r' => starGreedy cls (matchHere r') s
  end.

Fixpoint search (r : list rx) (s : string) : option string :=
  match matchHere r s with
  | Some m => Some m
  | None => match s with
            | String _ s' => search r s'
            | EmptyString => None
            end
  end.

Fixpoint lit (s : string) : list rx :=
  match s with
  | EmptyString => []
  | String c r => RChar c :: lit r
  end.

(** Every character of [s] is in the class. *)
Fixpoint allIn (cls : ascii -> bool) (s : string) : bool :=
  match s with
  | EmptyString => true
  | String c r => cls c && allIn cls r
  end.

(** The character occurs in the text. *)
Fixpoint occurs (c : ascii) (s : string) : bool :=
  match s with
  | EmptyString => false
  | String d r => Ascii.eqb c d || occurs c r
  end.

(** What it means for a text to match a pattern, without any search
    order: the yardstick for the matcher above. *)
Inductive Matches : list rx -> string -> Prop :=
| M_nil : Matches [] ""
| M_char c r m : Matches r m -> Matches (RChar c :: r) (String c m)
| M_star cls r run m :
    allIn cls run = true -> Matches r m ->
    Matches (RStar cls :: r) (run ++ m)%string.

(** The classes \s, \w, [^)] and [\s\S] on the ASCII range. *)
Definition cls_s : ascii -> bool := isWhiteSpace.
Definition cls_w (c : ascii) : bool :=
  let n := nat_of_ascii c in
  ((48 <=? n)%nat && (n <=? 57)%nat) || ((65 <=? n)%nat && (n <=? 90)%nat)
  || ((97 <=? n)%nat && (n <=? 122)%nat) || (n =? 95)%nat.
Definition cls_not_rparen (c : ascii) : bool := negb (Ascii.eqb c ")").
Definition cls_any (_ : ascii) : bool := true.

(** The pattern of [getFn], token by token:
    function \s* ( \w* ) \s* \( [^)]* \) \s* { [\s\S]* } *)
Definition fn_regex : list rx :=
  lit "function" ++ [RStar cls_s; RStar cls_w; RStar cls_s] ++ lit "("
  ++ [RStar cls_not_rparen] ++ lit ")" ++ [RStar cls_s] ++ lit "{"
  ++ [RStar cls_any] ++ lit "}".

(** The pattern of [getArrowFn], token by token:
    \( [^)]* \) \s* => \s* { [\s\S]* } *)
Definition arrow_regex : list rx :=
  lit "(" ++ [RStar cls_not_rparen] ++ lit ")" ++ [RStar cls_s] ++ lit "=>"
  ++ [RStar cls_s] ++ lit "{" ++ [RStar cls_any] ++ lit "}".

Definition getFn (fnStr : string) : option string := search fn_regex fnStr.
Definition getArrowFn (fnStr : string) : option string :=
  search arrow_regex fnStr.

(* ------------------------------------------------------------------ *)
(** *** Serializer *)

Definition UNDEFINED_FLAG : string := "__INLINE_DEBUGGER_UNDEFINED__".

Definition dquote : ascii := ascii_of_nat 34.
Definition backslash : ascii := ascii_of_nat 92.

Definition hexDigit (n : nat) : ascii :=
  nth n ["0"; "1"; "2"; "3"; "4"; "5"; "6"; "7"; "8"; "9";
         "a"; "b"; "c"; "d"; "e"; "f"]%char "0"%char.

(** One character of a JSON string literal ([QuoteJSONString]). *)
Definition escapeChar (c : ascii) : string :=
  let n := nat_of_ascii c in
  if (n =? 34)%nat then String backslash (String dquote "")
  else if (n =? 92)%nat then String backslash (String backslash "")
  else if (n =? 8)%nat then String backslash "b"
  else if (n =? 12)%nat then String backslash "f"
  else if (n =? 10)%nat then String backslash "n"
  else if (n =? 13)%nat then String backslash "r"
  else if (n =? 9)%nat then String backslash "t"
  else if (n <? 32)%nat then
    (String backslash "u00"
     ++ String (hexDigit (n / 16)) (String (hexDigit (n mod 16)) ""))%string
  else String c "".

Fixpoint escapeAll (s : string) : string :=
  match s with
  | EmptyString => ""
  | String c r => (escapeChar c ++ escapeAll r)%string
  end.

Definition quoteJSON (s : string) : string :=
  String dquote (escapeAll s ++ String dquote "")%string.

Definition numberToString (n : Z) : string :=
  NilZero.string_of_int (Z.to_int n).

(** The result of a computation that can raise, or (in the model only) use
    up the recursion budget that stands for the engine's call stack. *)
Inductive sres (A : Type) : Type :=
| Done (a : A)
| Raised (msg : string)
| OutOfFuel.
Arguments Raised {A} msg.
Arguments OutOfFuel {A}.

Definition inCache (l : loc) (cache : list loc) : bool :=
  existsb (Nat.eqb l) cache.

(** The replacer function [stringify] hands to [JSON.stringify], with the
    [cache] array it closes over passed in and out.  A native promise is an
    object whose [then] is truthy, so it goes the way of the first test on
    objects. *)
Definition replacer (h : heap) (cache : list loc) (v : val)
    : list loc * val :=
  match v with
  | VFun src =>
      (cache,
       match getFn src with
       | Some fn => VStr fn
       | None => match getArrowFn src with
                 | Some fn => VStr fn
                 | None => VNull
                 end
       end)
  | VUndefined => (cache, VStr UNDEFINED_FLAG)
  | VPromise _ => (cache, VStr "Promise")
  | VRef l =>
      if truthy (get_then h v) then (cache, VStr "Promise")
      else if inCache l cache then (cache, VUndefined)
      else (cache ++ [l], v)
  | _ => (cache, v)
  end.

(** The values of a property list or an element list, serialized left to
    right with the cache threaded through. *)
Fixpoint serializeAll
    (rec : list loc -> val -> sres (list loc * option string))
    (cache : list loc) (vs : list val)
    : sres (list loc * list (option string)) :=
  match vs with
  | [] => Done (cache, [])
  | v :: r =>
      match rec cache v with
      | Done (cache1, s) =>
          match serializeAll rec cache1 r with
          | Done (cache2, ss) => Done (cache2, s :: ss)
          | Raised m => Raised m
          | OutOfFuel => OutOfFuel
          end
      | Raised m => Raised m
      | OutOfFuel => OutOfFuel
      end
  end.

(** Members of an object: a property whose value serializes to [undefined]
    is left out. *)
Fixpoint members (keys : list string) (ss : list (option string))
    : list string :=
  match keys, ss with
  | k :: keys', Some s :: ss' =>
      (quoteJSON k ++ ":" ++ s)%string :: members keys' ss'
  | _ :: keys', None :: ss' => members keys' ss'
  | _, _ => []
  end.

(** Elements of an array: [undefined] is written [null]. *)
Definition elements (ss : list (option string)) : list string :=
  map (fun s => match s with Some x => x | None => "null" end) ss.

Definition circularMessage : string :=
  "Converting circular structure to JSON".

(** The objects of the heap the cache does not hold yet: what is left for
    one call of [stringify] to visit. *)
Definition unvisited (h : heap) (cache : list loc) : nat :=
  List.length
    (filter (fun l => negb (inCache l cache)) (seq 0 (List.length h))).

(** [SerializeJSONProperty] of ECMA-262 for a value [v] found in its holder,
    with the replacer above.  [stack] is the engine's own list of objects
    being serialized, whose repetition is the circular-structure
    [TypeError].  One unit of [fuel] is one nested call. *)
Fixpoint serializeProperty (fuel : nat) (h : heap) (cache stack : list loc)
    (v : val) : sres (list loc * option string) :=
  match fuel with
  | O => OutOfFuel
  | S fuel' =>
      let '(cache1, v1) := replacer h cache v in
      match v1 with
      | VUndefined | VFun _ => Done (cache1, None)
      | VNull => Done (cache1, Some "null")
      | VBool true => Done (cache1, Some "true")
      | VBool false => Done (cache1, Some "false")
      | VNum n => Done (cache1, Some (numberToString n))
      | VStr s => Done (cache1, Some (quoteJSON s))
      | VBigInt _ => Raised "Do not know how to serialize a BigInt"
      | VPromise _ => Done (cache1, Some "{}")
      | VRef l =>
          if inCache l stack then Raised circularMessage
          else
            let rec := fun c x => serializeProperty fuel' h c (stack ++ [l]) x in
            match deref h l with
            | Arr elems =>
                match serializeAll rec cache1 elems with
                | Done (cache2, ss) =>
                    Done (cache2,
                          Some ("[" ++ String.concat "," (elements ss)
                                ++ "]")%string)
                | Raised m => Raised m
                | OutOfFuel => OutOfFuel
                end
            | Obj props | Err _ props =>
                match serializeAll rec cache1 (map snd props) with
                | Done (cache2, ss) =>
                    Done (cache2,
                          Some ("{" ++ String.concat ","
                                         (members (map fst props) ss)
                                ++ "}")%string)
                | Raised m => Raised m
                | OutOfFuel => OutOfFuel
                end
            end
      end
  end.

(** [stringify(obj)]: a fresh cache, and as much budget as the heap has
    objects, plus one.  The engine's stack is a constant, not a function of
    the heap: a nesting deeper than that constant ends in its [RangeError],
    which this choice of budget leaves out; for a heap with fewer objects
    than the stack allows nested calls, the result is the engine's. *)
Definition stringify (h : heap) (obj : val) : sres (option string) :=
  match serializeProperty (S (List.length h)) h [] [] obj with
  | Done (_, str) => Done str
  | Raised m => Raised m
  | OutOfFuel => OutOfFuel
  end.

(** [tryToStringify(value)] on the values above.  The [catch] arm builds its
    text from the error's message; a spent budget is the engine's
    [RangeError].  On these values [JSON.stringify] raises error objects of
    the engine only, whose [message] can be read; what the [catch] arm does
    with a value raised by code of the program ([toJSON], a getter) is
    [tryToStringify_host] further down. *)
Definition tryToStringify (h : heap) (v : val) : option string :=
  match stringify h v with
  | Done str => str
  | Raised m => Some ("[Error stringifying: " ++ m ++ "]")%string
  | OutOfFuel =>
      Some "[Error stringifying: Maximum call stack size exceeded]"
  end.

(* ================================================================== *)
(** ** The store and the monitor *)

(** [DebugData], with the type of its [called] slot left open: a deferred
    computation on the way in, serialized text once stored. *)
Record DebugData (C : Type) : Type := mkDebugData {
  type : string;
  variable : option string;
  called : C;
  line : option Z;
  filePath : string;
  prefix : option string;
  hide : option bool
}.

(** What the [called] slot of a stored record holds: the text
    [tryToStringify] returned (a string or, by its JavaScript type only,
    [undefined]); the texts of a logging call's arguments; or the pair
    [[error.message, stringError]] of an error record. *)
Inductive stored : Type :=
| Serialized (str : option string)
| LogArgs (entries : list (option string))
| ErrorPair (message : val) (stringError : option string).

Definition Entry : Type := DebugData stored.

(** The text [JSON.stringify(records, null, 2)] produces, kept as the
    sequence it denotes; [JSON.parse] reads the sequence back (up to JSON's
    own conventions for [undefined], which the model does not apply). *)
Inductive fileContent : Type :=
| JSONText (records : list Entry).

Definition JSON_parse (c : fileContent) : list Entry :=
  match c with JSONText records => records end.

(** A reaction [.then(...).catch(...)] the monitor left on a promise: the
    [dataValue] both closures share, and the [hide] flag they read (from the
    caller's record, taken to be the same at settlement as at the call). *)
Record Reaction : Type := mkReaction {
  on_promise : nat;
  r_dataValue : Entry;
  r_hide : bool
}.

(** The fields of [InlineDebuggerRuntime] ([dataFile], [outputFile],
    [isInitialized]) and the parts of the world it acts on: the heap, the
    file named by [outputFile] (the name is taken to be relative, as the
    default is, so that [save], [getData] and [clearData] mean one file),
    and the reactions waiting on promises. *)
Record state : Type := mkState {
  heap_of : heap;
  dataFile : list Entry;
  outputFile : string;
  isInitialized : bool;
  file : option fileContent;
  pending : list Reaction
}.

Definition with_heap (h : heap) (st : state) : state :=
  mkState h (dataFile st) (outputFile st) (isInitialized st) (file st)
          (pending st).
Definition with_store (d : list Entry) (f : option fileContent) (st : state)
    : state :=
  mkState (heap_of st) d (outputFile st) (isInitialized st) f (pending st).
Definition with_pending (q : list Reaction) (st : state) : state :=
  mkState (heap_of st) (dataFile st) (outputFile st) (isInitialized st)
          (file st) q.

(** [new InlineDebuggerRuntime()] in a process: empty sequence, default
    file name, initialized by the constructor; nothing on disk yet. *)
Definition newRuntime : state :=
  mkState [] [] ".debug.data.json" true None [].

(** How an evaluation ends.  [Uninterpreted]: it called code the model has
    no text for (a [then] method written by the user, an expression the
    host evaluator does not know). *)
Inductive completion : Type :=
| Normal (v : val)
| Throw (v : val)
| Uninterpreted.

(** A deferred computation: it may change the world it runs in. *)
Definition thunk : Type := state -> completion * state.

(** [initialize()] without options; the two process handlers it installs
    run [exitFlush]. *)
Definition initialize (st : state) : state :=
  mkState (heap_of st) (dataFile st) (outputFile st) true (file st)
          (pending st).

Definition ensureInitialized (st : state) : state :=
  if isInitialized st then st else initialize st.

(** [save(hide, dataValue?)]. *)
Definition save (hide : bool) (dataValue : option Entry) (st : state)
    : state :=
  if hide then st
  else
    let d := match dataValue with
             | Some dv => dataFile st ++ [dv]
             | None => dataFile st
             end in
    with_store d (Some (JSONText d)) st.

Definition exitFlush (st : state) : state := save false None st.

(** [data.hide || false]. *)
Definition hideOf (C : Type) (data : DebugData C) : bool :=
  match hide data with Some b => b | None => false end.

Definition with_called (C D : Type) (c : D) (d : DebugData C)
    : DebugData D :=
  mkDebugData (type d) (variable d) c (line d) (filePath d) (prefix d)
              (hide d).
Definition with_type (C : Type) (ty : string) (d : DebugData C)
    : DebugData C :=
  mkDebugData ty (variable d) (called d) (line d) (filePath d) (prefix d)
              (hide d).
Definition with_prefix (C : Type) (p : string) (d : DebugData C)
    : DebugData C :=
  mkDebugData (type d) (variable d) (called d) (line d) (filePath d) (Some p)
              (hide d).
Definition with_filePath (C : Type) (f : string) (d : DebugData C)
    : DebugData C :=
  mkDebugData (type d) (variable d) (called d) (line d) f (prefix d)
              (hide d).

(** [onError(error, dataValue)]; [None] when reading [error.message]
    raises, which happens for [null] and [undefined] only. *)
Definition onError (h : heap) (error : val) (dataValue : Entry)
    : option Entry :=
  let stringError := tryToStringify h error in
  let dataValue := with_type "error" dataValue in
  match get_message h error with
  | Some m => Some (with_called (ErrorPair m stringError) dataValue)
  | None => None
  end.

(** Raising a fresh [TypeError] with the given message. *)
Definition raiseTypeError (msg : string) (st : state) : completion * state :=
  (Throw (VRef (List.length (heap_of st))),
   with_heap (heap_of st ++ [Err msg []]) st).

Definition typeName (v : val) : string :=
  match v with VNull => "null" | _ => "undefined" end.

Definition messageTypeError (error : val) : string :=
  ("Cannot read properties of " ++ typeName error
   ++ " (reading 'message')")%string.

(** [{ ...data, called: "Failed Promise. Please use a .catch to display it" }] *)
Definition initialDataValue (data : DebugData thunk) : Entry :=
  with_called
    (Serialized (Some "Failed Promise. Please use a .catch to display it"))
    data.

(** The two closures handed to [called.then(...).catch(...)]. *)
Definition onResolved (dataValue : Entry) (hide : bool) (r : val)
    (st : state) : completion * state :=
  let dataValue := with_prefix "Resolved Promise: " dataValue in
  let dataValue :=
    with_called (Serialized (tryToStringify (heap_of st) r)) dataValue in
  (Normal r, save hide (Some dataValue) st).

Definition onRejected (dataValue : Entry) (hide : bool) (err : val)
    (st : state) : completion * state :=
  let dataValue := with_prefix "Rejected Promise: " dataValue in
  let dataValue :=
    with_called (Serialized (tryToStringify (heap_of st) err)) dataValue in
  (Throw err, save hide (Some dataValue) st).

(** How a promise settles. *)
Inductive settlement : Type :=
| Fulfilled (v : val)
| Rejected (v : val).

(** Running the reaction [p.then(f).catch(g)] once [p] has settled; the
    completion is the fate of the derived promise ([Normal]: fulfilled,
    [Throw]: rejected).  [g] also runs when [f] itself raises.  The two
    closures are jobs of the host's queue, [g] one job later than [f] would
    run; [runReaction] is the effect of the pair once its job has run, and
    says nothing on how the jobs of several promises interleave. *)
Definition runReaction (r : Reaction) (s : settlement) (st : state)
    : completion * state :=
  match s with
  | Fulfilled v =>
      match onResolved (r_dataValue r) (r_hide r) v st with
      | (Throw e, st') => onRejected (r_dataValue r) (r_hide r) e st'
      | other => other
      end
  | Rejected err => onRejected (r_dataValue r) (r_hide r) err st
  end.

(** [inlineDebuggerWatch(data)]. *)
Definition inlineDebuggerWatch (data : DebugData thunk) (st : state)
    : completion * state :=
  let st := ensureInitialized st in
  let dataValue := initialDataValue data in
  match called data st with
  | (Throw error, st1) =>
      match onError (heap_of st1) error dataValue with
      | Some dv => (Throw error, save (hideOf data) (Some dv) st1)
      | None => raiseTypeError (messageTypeError error) st1
      end
  | (Uninterpreted, st1) => (Uninterpreted, st1)
  | (Normal result, st1) =>
      if String.eqb (type data) "error" then
        match onError (heap_of st1) result dataValue with
        | Some dv => (Throw result, save (hideOf data) (Some dv) st1)
        | None => raiseTypeError (messageTypeError result) st1
        end
      else if truthy (get_then (heap_of st1) result) then
        match result with
        | VPromise p =>
            (* [data.called = called.then(...).catch(...)]: the derived
               promise is stored in the caller's record only *)
            (Normal result,
             with_pending
               (pending st1 ++ [mkReaction p dataValue (hideOf data)]) st1)
        | _ =>
            match get_then (heap_of st1) result with
            | VFun _ => (Uninterpreted, st1)
            | _ => raiseTypeError "called.then is not a function" st1
            end
        end
      else
        let dataValue :=
          with_called (Serialized (tryToStringify (heap_of st1) result))
                      dataValue in
        (Normal result, save (hideOf data) (Some dataValue) st1)
  end.

(** [debugLog(logFn, data)]; [logFn] is the real logging function.  The
    source changes the caller's own object [data] in place and pushes that
    very object; the sequence here holds the record as it is at the push. *)
Definition debugLog (logFn : list val -> thunk) (data : DebugData (list val))
    (st : state) : completion * state :=
  let st := ensureInitialized st in
  match logFn (called data) st with
  | (Normal _, st1) =>
      let entries := map (tryToStringify (heap_of st1)) (called data) in
      let data' := with_called (LogArgs entries) data in
      let data' :=
        if String.eqb (filePath data') "" then with_filePath "unknown" data'
        else data' in
      (Normal VUndefined, save false (Some data') st1)
  | other => other
  end.

(** The accessor facade [setupGlobals] installs as [inlineDebugger]. *)
Definition getData (st : state) : list Entry :=
  match file st with
  | Some c => JSON_parse c
  | None => []
  end.

Definition clearData (st : state) : state :=
  match file st with
  | Some _ => with_store (dataFile st) None st
  | None => st
  end.

(* ================================================================== *)
(** ** Running instrumented statements

    What the engine does with the statements the visitors build: a call of
    [inlineDebuggerWatch] on an object literal runs the monitor above on the
    record the literal denotes; every other expression is the host
    program's and is evaluated by [evalExpr]. *)

Section Execution.

Variable evalExpr : Node -> thunk.

Definition keyed (name : string) (prop : Node) : option Node :=
  match shapeOf prop with
  | ObjectProperty k v =>
      match shapeOf k with
      | Identifier n => if String.eqb n name then Some v else None
      | _ => None
      end
  | _ => None
  end.

(** The value a key has in an object literal (the last one written). *)
Fixpoint property (name : string) (props : list Node) : option Node :=
  match props with
  | [] => None
  | p :: r => match property name r with
              | Some v => Some v
              | None => keyed name p
              end
  end.

Definition stringOf (n : option Node) : option string :=
  match n with
  | Some m => match shapeOf m with StringLiteral s => Some s | _ => None end
  | None => None
  end.

Definition numberOf (n : option Node) : option Z :=
  match n with
  | Some m => match shapeOf m with NumericLiteral z => Some z | _ => None end
  | None => None
  end.

(** The closure an arrow function [() => { return e; }] evaluates to. *)
Definition thunkOf (n : option Node) : option thunk :=
  match n with
  | Some m =>
      match shapeOf m with
      | ArrowFunctionExpression [] b =>
          match shapeOf b with
          | BlockStatement [ret] =>
              match shapeOf ret with
              | ReturnStatement (Some e) => Some (evalExpr e)
              | _ => None
              end
          | _ => None
          end
      | _ => None
      end
  | None => None
  end.

(** The record an object literal built by [createWatchCall] denotes. *)
Definition watchData (obj : Node) : option (DebugData thunk) :=
  match shapeOf obj with
  | ObjectExpression props =>
      match stringOf (property "type" props),
            stringOf (property "filePath" props),
            thunkOf (property "called" props) with
      | Some ty, Some fp, Some th =>
          Some (mkDebugData ty (stringOf (property "variable" props)) th
                  (numberOf (property "line" props)) fp None None)
      | _, _, _ => None
      end
  | _ => None
  end.

Definition evalCall (e : Node) : thunk :=
  match shapeOf e with
  | CallExpression callee [obj] =>
      match shapeOf callee, watchData obj with
      | Identifier f, Some data =>
          if String.eqb f "inlineDebuggerWatch" then inlineDebuggerWatch data
          else evalExpr e
      | _, _ => evalExpr e
      end
  | _ => evalExpr e
  end.

(** The operands of a sequence expression, left to right; the value is the
    last operand's. *)
Fixpoint evalSequence (es : list Node) : thunk :=
  fun st =>
    match es with
    | [] => (Normal VUndefined, st)
    | [e] => evalCall e st
    | e :: r =>
        match evalCall e st with
        | (Normal _, st') => evalSequence r st'
        | other => other
        end
    end.

Definition evalInstrumented (e : Node) : thunk :=
  match shapeOf e with
  | SequenceExpression es => evalSequence es
  | _ => evalCall e
  end.

Definition execStatement (s : Node) : thunk :=
  fun st =>
    match shapeOf s with
    | ExpressionStatement e =>
        match evalInstrumented e st with
        | (Normal _, st') => (Normal VUndefined, st')
        | other => other
        end
    | ThrowStatement a =>
        match evalExpr a st with
        | (Normal v, st') => (Throw v, st')
        | other => other
        end
    | _ => evalExpr s st
    end.

(** A block: its statements in order, up to the first abrupt one. *)
Fixpoint execBlock (body : list Node) : thunk :=
  fun st =>
    match body with
    | [] => (Normal VUndefined, st)
    | s :: r =>
        match execStatement s st with
        | (Normal _, st') => execBlock r st'
        | other => other
        end
    end.

Definition execNode (n : Node) : thunk :=
  match shapeOf n with
  | BlockStatement body => execBlock body
  | _ => execStatement n
  end.

End Execution.

(** An evaluator for the one host expression the fixture's throw statement
    needs, [new Error("...")]: it allocates a fresh error object. *)
Definition evalNewError (e : Node) : thunk :=
  fun st =>
    match shapeOf e with
    | NewExpression callee [arg] =>
        match shapeOf callee, shapeOf arg with
        | Identifier c, StringLiteral m =>
            if String.eqb c "Error" then
              (Normal (VRef (List.length (heap_of st))),
               with_heap (heap_of st ++ [Err m []]) st)
            else (Uninterpreted, st)
        | _, _ => (Uninterpreted, st)
        end
    | _ => (Uninterpreted, st)
    end.

(** [throw new Error("Name is required"); //?] of [fixtures/user.ts],
    line 20, as the visitor meets it. *)
Definition userThrow : Path :=
  mkPath
    (mkNode None (Some [mkComment "?"]) (Some 20%Z)
       (ThrowStatement
          (mkNode None None (Some 20%Z)
             (NewExpression (mkNode None None (Some 20%Z) (Identifier "Error"))
                [mkNode None None (Some 20%Z)
                   (StringLiteral "Name is required")]))))
    (Some (mkNode None None (Some 19%Z) (BlockStatement [])))
    (Some "user.ts").

(* ================================================================== *)
(** ** Derived notions and the inputs the theorems are tried on *)

(** A node commented [// ?] (with a space): the source does not select it,
    the specification's trimmed test would. *)
Definition spacedMarker : Path :=
  mkPath
    (mkNode None (Some [mkComment " ?"]) (Some 1%Z)
       (ExpressionStatement (mkNode None None (Some 1%Z) (NumericLiteral 5))))
    None (Some "a.js").

(** A call of one of the monitor's own entry points, as the specification
    means it. *)
Definition isMonitorCall_spec (e : Node) : bool :=
  match shapeOf e with
  | CallExpression callee _ =>
      match shapeOf callee with
      | Identifier f =>
          String.eqb f "inlineDebuggerWatch" || String.eqb f "debugLog"
      | _ => false
      end
  | _ => false
  end.

(** The monitor call the expression visitor builds around [e]. *)
Definition expressionWatch (p : Path) (e : Node) : Node :=
  t.callExpression (t.identifier "inlineDebuggerWatch")
    [t.objectExpression
       [ t.objectProperty (t.identifier "type") (t.stringLiteral "expression");
         t.objectProperty (t.identifier "filePath")
                          (t.stringLiteral (getFilePath p));
         t.objectProperty (t.identifier "line") (t.numericLiteral (lineOf p));
         t.objectProperty (t.identifier "called") (returningThunk e) ]].

(** [foo(); //?]: a marked statement that calls a function of the program. *)
Definition markedCall : Path :=
  mkPath
    (mkNode None (Some [mkComment "?"]) (Some 1%Z)
       (ExpressionStatement
          (mkNode None None (Some 1%Z)
             (CallExpression (mkNode None None (Some 1%Z) (Identifier "foo"))
                             []))))
    None (Some "a.js").

(** [2 + 3; //?], the binary expression kept as an uninterpreted node. *)
Definition markedSum : Path :=
  mkPath
    (mkNode None (Some [mkComment "?"]) (Some 1%Z)
       (ExpressionStatement
          (mkNode None None (Some 1%Z)
             (OtherNode "BinaryExpression"
                [mkNode None None (Some 1%Z) (NumericLiteral 2);
                 mkNode None None (Some 1%Z) (NumericLiteral 3)]))))
    None (Some "a.js").

(** An object that holds itself, and an array that holds itself and the
    object twice. *)
Definition cyclicHeap : heap :=
  [ Obj [("name", VStr "a"); ("self", VRef 0)];
    Arr [VRef 1; VRef 0; VRef 0; VBigInt 1] ].

(** The file mirrors the sequence: it holds the serialization of the whole
    sequence, or there is no file yet and the sequence is empty. *)
Definition mirrored (st : state) : Prop :=
  file st = Some (JSONText (dataFile st))
  \/ (file st = None /\ dataFile st = []).

(** A monitor call the caller has marked [hide: true];
    [inlineDebuggerWatch({type: "variable", variable: "a", line: 1,
    filePath: "a.ts", called: () => 5, hide: true})]. *)
Definition hiddenWatch : DebugData thunk :=
  mkDebugData "variable" (Some "a") (fun st => (Normal (VNum 5), st))
              (Some 1%Z) "a.ts" None (Some true).

(** Two plain monitor calls around a clear:
    [const a = 5; //?] and [const b = 3; //?]. *)
Definition watchA : DebugData thunk :=
  mkDebugData "variable" (Some "a") (fun st => (Normal (VNum 5), st))
              (Some 1%Z) "app.ts" None None.
Definition watchB : DebugData thunk :=
  mkDebugData "variable" (Some "b") (fun st => (Normal (VNum 3), st))
              (Some 2%Z) "app.ts" None None.
Definition entryA : Entry :=
  mkDebugData "variable" (Some "a") (Serialized (Some "5")) (Some 1%Z)
              "app.ts" None None.
Definition entryB : Entry :=
  mkDebugData "variable" (Some "b") (Serialized (Some "3")) (Some 2%Z)
              "app.ts" None None.

(** The record [onError] leaves in [dataValue]. *)
Definition errorEntry (data : DebugData thunk) (message : val)
    (stringError : option string) : Entry :=
  mkDebugData "error" (variable data) (ErrorPair message stringError)
              (line data) (filePath data) (prefix data) (hide data).

(** The record a settlement closure leaves in [dataValue]. *)
Definition settledEntry (data : DebugData thunk) (tag : string)
    (text : option string) : Entry :=
  mkDebugData (type data) (variable data) (Serialized text) (line data)
              (filePath data) (Some tag) (hide data).

(** A heap with one error object, [new Error("boom")], and monitor calls
    whose deferred computation raises it, raises [null], or returns a
    promise although the record says [type: "error"]. *)
Definition boomRuntime : state := with_heap [Err "boom" []] newRuntime.

Definition hiddenThrow : DebugData thunk :=
  mkDebugData "expression" None (fun st => (Throw (VRef 0), st)) (Some 3%Z)
              "a.ts" None (Some true).
Definition plainThrow : DebugData thunk :=
  mkDebugData "expression" None (fun st => (Throw (VRef 0), st)) (Some 3%Z)
              "a.ts" None None.
Definition nullThrow : DebugData thunk :=
  mkDebugData "expression" None (fun st => (Throw VNull, st)) (Some 3%Z)
              "a.ts" None None.
Definition errorKindPromise : DebugData thunk :=
  mkDebugData "error" None (fun st => (Normal (VPromise 7), st)) (Some 4%Z)
              "a.ts" None None.
Definition hiddenPromise : DebugData thunk :=
  mkDebugData "await" None (fun st => (Normal (VPromise 7), st)) (Some 4%Z)
              "a.ts" None (Some true).
Definition plainPromise : DebugData thunk :=
  mkDebugData "await" None (fun st => (Normal (VPromise 7), st)) (Some 4%Z)
              "a.ts" None None.

(** [console.log("x", 1)] wrapped by the transform, with [hide: true] added
    by hand; the logging function does nothing to the store. *)
Definition quietLog : list val -> thunk :=
  fun _ st => (Normal VUndefined, st).
Definition hiddenLog : DebugData (list val) :=
  mkDebugData "log" None [VStr "x"; VNum 1] (Some 1%Z) "a.ts" None (Some true).

(** The monitor call the throw visitor builds around the operand [a]. *)
Definition throwWatch (p : Path) (a : Node) : Node :=
  t.callExpression (t.identifier "inlineDebuggerWatch")
    [t.objectExpression
       [ t.objectProperty (t.identifier "type") (t.stringLiteral "throw");
         t.objectProperty (t.identifier "filePath")
                          (t.stringLiteral (getFilePath p));
         t.objectProperty (t.identifier "line") (t.numericLiteral (lineOf p));
         t.objectProperty (t.identifier "called") (returningThunk a) ]].

(** The record the throw visitor's literal denotes. *)
Definition throwData (evalExpr : Node -> thunk) (p : Path) (a : Node)
    : DebugData thunk :=
  mkDebugData "throw" None (evalExpr a) (Some (lineOf p)) (getFilePath p)
              None None.

(** The record the expression visitor's literal denotes. *)
Definition expressionData (evalExpr : Node -> thunk) (p : Path) (e : Node)
    : DebugData thunk :=
  mkDebugData "expression" None (evalExpr e) (Some (lineOf p))
              (getFilePath p) None None.

Definition userThrowOperand : Node :=
  mkNode None None (Some 20%Z)
    (NewExpression (mkNode None None (Some 20%Z) (Identifier "Error"))
       [mkNode None None (Some 20%Z) (StringLiteral "Name is required")]).

Definition instrumentedUserThrow : Node :=
  t.blockStatement
    [t.expressionStatement (throwWatch userThrow userThrowOperand);
     t.throwStatement userThrowOperand].

(* ================================================================== *)
(** ** More of the plugin and of the runtime *)

(** *** The return and logging visitors

    [ReturnStatement] changes its node in place ([path.node.argument = ...]),
    so its result keeps the node's comments and location; [Some n] is then
    the node after the assignment. *)

Definition visitReturnStatement (p : Path) : option Node :=
  if negb (hasWorksheetComment p) then None
  else match node p with
       | mkNode l tr ln (ReturnStatement (Some argument)) =>
           let watchCall :=
             setCalled (createWatchCall p "return" None)
                       (returningThunk argument) in
           Some (mkNode l tr ln
                   (ReturnStatement
                      (Some (t.sequenceExpression [watchCall; argument]))))
       | _ => None
       end.

(** [wrapWithLog(path, logFn, args)]: the call that replaces the node. *)
Definition wrapWithLog (p : Path) (logFn : Node) (args : list Node) : Node :=
  t.callExpression (t.identifier "debugLog")
    [ logFn;
      t.objectExpression
        [ t.objectProperty (t.identifier "type") (t.stringLiteral "log");
          t.objectProperty (t.identifier "filePath")
                           (t.stringLiteral (getFilePath p));
          t.objectProperty (t.identifier "line")
                           (t.numericLiteral (lineOf p));
          t.objectProperty (t.identifier "called")
                           (built (ArrayExpression args)) ] ].

Definition visitCallExpression (p : Path) : option Node :=
  if negb (hasWorksheetComment p) then None
  else match shapeOf (node p) with
       | CallExpression callee args =>
           match shapeOf callee with
           | MemberExpression object property =>
               match shapeOf object with
               | Identifier o =>
                   if String.eqb o "console" then
                     match shapeOf property with
                     | Identifier logMethod =>
                         Some (wrapWithLog p
                                 (t.identifier ("console." ++ logMethod)%string)
                                 args)
                     | _ => None
                     end
                   else None
               | _ => None
               end
           | _ => None
           end
       | _ => None
       end.

(** The monitor call the return visitor builds, and the record its literal
    denotes. *)
Definition returnWatch (p : Path) (a : Node) : Node :=
  t.callExpression (t.identifier "inlineDebuggerWatch")
    [t.objectExpression
       [ t.objectProperty (t.identifier "type") (t.stringLiteral "return");
         t.objectProperty (t.identifier "filePath")
                          (t.stringLiteral (getFilePath p));
         t.objectProperty (t.identifier "line") (t.numericLiteral (lineOf p));
         t.objectProperty (t.identifier "called") (returningThunk a) ]].

Definition returnData (evalExpr : Node -> thunk) (p : Path) (a : Node)
    : DebugData thunk :=
  mkDebugData "return" None (evalExpr a) (Some (lineOf p)) (getFilePath p)
              None None.

(** What a return statement hands to its caller: the value of its argument,
    [undefined] without one. *)
Definition execReturn (evalExpr : Node -> thunk) (n : Node) : thunk :=
  match shapeOf n with
  | ReturnStatement (Some a) => evalInstrumented evalExpr a
  | ReturnStatement None => fun st => (Normal VUndefined, st)
  | _ => evalExpr n
  end.

(** [return new Error("boom"); //?]: a return whose argument allocates. *)
Definition newErrorOperand : Node :=
  mkNode None None (Some 6%Z)
    (NewExpression (mkNode None None (Some 6%Z) (Identifier "Error"))
       [mkNode None None (Some 6%Z) (StringLiteral "boom")]).

Definition markedReturn : Path :=
  mkPath
    (mkNode None (Some [mkComment "?"]) (Some 6%Z)
       (ReturnStatement (Some newErrorOperand)))
    None (Some "math.ts").

(** [variable] as [createWatchCall] keeps it: dropped when empty. *)
Definition nonEmpty (variable : option string) : option string :=
  match variable with
  | Some v => if String.eqb v "" then None else Some v
  | None => None
  end.

(** *** The printing accessor

    [printData] writes to the console; the model returns the lines.  The
    host's [path.basename], its conversion of a parsed [called] value to a
    string inside a template, and the header line (a constant that holds a
    pictograph) are parameters. *)

Section PrintData.

Variable basename : string -> string.
Variable showCalled : stored -> string.
Variable header : string.

Definition lineInfo (l : option Z) : string :=
  match l with
  | Some n => if Z.eqb n 0 then ""
              else (" (line " ++ numberToString n ++ ")")%string
  | None => ""
  end.

Definition fileInfo (fp : string) : string :=
  if String.eqb fp "" then "" else (" [" ++ basename fp ++ "]")%string.

Definition showVariable (v : option string) : string :=
  match v with Some s => s | None => "undefined" end.

Definition showPrefix (o : option string) : string :=
  match o with Some s => s | None => "" end.

(** The body of the [forEach]: the line printed for [item] at [index], if
    any. *)
Definition printItem (index : nat) (item : Entry) : option string :=
  let n := numberToString (Z.of_nat index + 1) in
  let tail :=
    (showCalled (called item) ++ lineInfo (line item)
     ++ fileInfo (filePath item))%string in
  if String.eqb (type item) "variable" then
    Some (n ++ ". " ++ showVariable (variable item) ++ " = " ++ tail)%string
  else if String.eqb (type item) "expression" then
    Some (n ++ ". " ++ showPrefix (prefix item) ++ tail)%string
  else if String.eqb (type item) "log" then
    Some (n ++ ". [LOG] " ++ tail)%string
  else if String.eqb (type item) "error" then
    Some (n ++ ". [ERROR] " ++ tail)%string
  else None.

Fixpoint printItems (index : nat) (data : list Entry) : list string :=
  match data with
  | [] => []
  | item :: r =>
      match printItem index item with
      | Some l => l :: printItems (S index) r
      | None => printItems (S index) r
      end
  end.

Definition printData (st : state) : list string :=
  header :: printItems 0 (getData st).

End PrintData.

(** The kinds [printData] has a line for. *)
Definition printedKind (ty : string) : bool :=
  String.eqb ty "variable" || String.eqb ty "expression"
  || String.eqb ty "log" || String.eqb ty "error".

(** A value that is not an object: everything but heap objects and
    promises. *)
Definition isPrimitive (v : val) : bool :=
  match v with
  | VRef _ | VPromise _ => false
  | _ => true
  end.

(** The record [debugLog] persists. *)
Definition logEntry (d : DebugData (list val)) (h : heap) : Entry :=
  mkDebugData (type d) (variable d)
              (LogArgs (map (tryToStringify h) (called d))) (line d)
              (if String.eqb (filePath d) "" then "unknown" else filePath d)
              (prefix d) (hide d).

(** The record the monitor persists for a plain value. *)
Definition valueEntry (data : DebugData thunk) (text : option string)
    : Entry :=
  mkDebugData (type data) (variable data) (Serialized text) (line data)
              (filePath data) (prefix data) (hide data).

(** [console.log("x", 1); //?] as the parser hands it over: the comment
    sits on the statement, the call is its child. *)
Definition consoleCall : Node :=
  mkNode None None (Some 1%Z)
    (CallExpression
       (mkNode None None (Some 1%Z)
          (MemberExpression
             (mkNode None None (Some 1%Z) (Identifier "console"))
             (mkNode None None (Some 1%Z) (Identifier "log"))))
       [mkNode None None (Some 1%Z) (StringLiteral "x");
        mkNode None None (Some 1%Z) (NumericLiteral 1)]).

Definition consoleStatement : Path :=
  mkPath
    (mkNode None (Some [mkComment "?"]) (Some 1%Z)
       (ExpressionStatement consoleCall))
    None (Some "a.js").

(** A value that names no object outside the heap, and a heap whose
    objects hold only such values. *)
Definition closedVal (h : heap) (v : val) : Prop :=
  match v with
  | VRef l => l < List.length h
  | _ => True
  end.

Definition objectValues (o : object) : list val :=
  match o with
  | Obj props | Err _ props => map snd props
  | Arr elems => elems
  end.

Definition closedHeap (h : heap) : Prop :=
  Forall (fun o => Forall (closedVal h) (objectValues o)) h.

(** *** Replacing a node

    [path.replaceWith(replacement)] of Babel, as far as the visitors depend
    on it.  The replacement inherits the comments of the node it replaces
    ([t.inheritsComments]: for the leading and for the trailing comments, the
    replacement's own followed by the old node's, always as an array), it
    takes the old node's place under the same parent, and the path is
    requeued: the traversal visits the replacement in its turn.  Babel drops
    a comment object that would be listed twice; a node fresh from the
    builders has none, so none is listed twice here. *)

Definition inherit (child parent : option (list Comment))
    : option (list Comment) :=
  Some (orEmpty child ++ orEmpty parent).

Definition inheritsComments (child parent : Node) : Node :=
  match child with
  | mkNode l tr ln s =>
      mkNode (inherit l (leadingComments parent))
             (inherit tr (trailingComments parent)) ln s
  end.

Definition replaceWith (p : Path) (replacement : Node) : Path :=
  mkPath (inheritsComments replacement (node p)) (parent p) (filename p).

(** What the traversal makes of a path under the [ExpressionStatement]
    visitor.  When the visitor leaves the node alone the traversal goes on
    with that node, [Done].  When the visitor has replaced it, the requeued
    path is visited again, one call deeper on the engine's stack; [fuel] is
    the depth the stack allows. *)
Fixpoint traverseExpressionStatement (fuel : nat) (p : Path) : sres Node :=
  match visitExpressionStatement p with
  | None => Done (node p)
  | Some replacement =>
      match fuel with
      | O => OutOfFuel
      | S fuel' => traverseExpressionStatement fuel' (replaceWith p replacement)
      end
  end.

(** *** The serializer's entry point on values of the host

    Values that are not data reach the serializer too.  An object with a
    [toJSON] method has that method called by [JSON.stringify] before the
    replacer sees anything, and the method may raise any value; a symbol is
    handed back by the replacer and written as nothing at all.  What
    [JSON.stringify] raises is then either an error object of the engine,
    whose [message] is a string, or the value the program raised. *)

Inductive hostValue : Type :=
| Data (v : val)
| ToJSONThrows (error : val)
| SymbolValue.

Inductive thrown : Type :=
| EngineError (message : string)
| Value (v : val).

(** How [this.stringify(value)] ends. *)
Inductive attempt : Type :=
| Returns (str : option string)
| Raises (error : thrown).

(** How [tryToStringify(value)] ends: with what it returns, or with the
    [TypeError] its own [catch] arm raises. *)
Inductive result : Type :=
| Gives (str : option string)
| Escapes (message : string).

Definition stringify_host (h : heap) (x : hostValue) : attempt :=
  match x with
  | Data v =>
      match stringify h v with
      | Done str => Returns str
      | Raised m => Raises (EngineError m)
      | OutOfFuel => Raises (EngineError "Maximum call stack size exceeded")
      end
  | ToJSONThrows error => Raises (Value error)
  | SymbolValue => Returns None
  end.

(** [(error as Error).message] in the [catch] arm: the message, or the
    message of the [TypeError] the read raises. *)
Definition readMessage (h : heap) (error : thrown) : val + string :=
  match error with
  | EngineError m => inl (VStr m)
  | Value e => match get_message h e with
               | Some m => inl m
               | None => inr (messageTypeError e)
               end
  end.

Section HostValues.

(** The host's conversion of a value to a string inside a template. *)
Variable toStringHost : heap -> val -> string.

Definition tryToStringify_host (h : heap) (x : hostValue) : result :=
  match stringify_host h x with
  | Returns str => Gives str
  | Raises error =>
      match readMessage h error with
      | inl m =>
          Gives (Some ("[Error stringifying: " ++ toStringHost h m ++ "]")%string)
      | inr msg => Escapes msg
      end
  end.

End HostValues.

(** *** Source texts of functions

    The text of a conventional function, [function name(params) { body }],
    and of an arrow function with a parenthesised parameter list and a block
    body, [(params) => { body }], with the white space between their
    parts. *)
Definition conventionalSource (w1 name w2 params w3 body : string) : string :=
  ("function" ++ w1 ++ name ++ w2 ++ "(" ++ params ++ ")" ++ w3 ++ "{"
   ++ body ++ "}")%string.

Definition blockArrowSource (params w1 w2 body : string) : string :=
  ("(" ++ params ++ ")" ++ w1 ++ "=>" ++ w2 ++ "{" ++ body ++ "}")%string.

(** The lines [printData] prints after the header, said without its loop:
    the records with their positions, in store order, each giving its line
    or nothing. *)
Definition optionToList (A : Type) (o : option A) : list A :=
  match o with Some a => [a] | None => [] end.

Definition numbered (A : Type) (from : nat) (l : list A) : list (nat * A) :=
  combine (seq from (List.length l)) l.

(* ================================================================== *)
(** * Theorems *)

Unset Implicit Arguments.

(** ** Marker scanner *)

Lemma startsWith_marker (s : string) :
  startsWith s "?" = true <-> exists rest, s = String "?" rest.
Proof.
  unfold startsWith. rewrite String.prefix_correct.
  destruct s as [|c r]; cbn [String.length substring].
  - split; [intros H | intros [rest H]]; discriminate.
  - replace (substring 0 0 r) with "" by now destruct r.
    split.
    + intros H. injection H as ->. now exists r.
    + intros [rest H]. injection H as -> _. reflexivity.
Qed.

Lemma startsWith_whitespace (c : ascii) (s : string) :
  isWhiteSpace c = true -> startsWith (String c s) "?" = false.
Proof.
  intros Hc. apply not_true_is_false. intros H.
  apply startsWith_marker in H as [rest H]. injection H as -> _.
  discriminate Hc.
Qed.

(** The comments the scanner reads are the node's own and its parent's,
    nothing else. *)
Lemma allNodeComments_In (p : Path) (c : Comment) :
  In c (allNodeComments p) <->
  In c (orEmpty (leadingComments (node p)))
  \/ In c (orEmpty (trailingComments (node p)))
  \/ exists q, parent p = Some q
       /\ (In c (orEmpty (leadingComments q))
           \/ In c (orEmpty (trailingComments q))).
Proof.
  unfold allNodeComments. rewrite !in_app_iff.
  destruct (parent p) as [q|].
  - rewrite in_app_iff. split.
    + intros [[H|H]|[H|H]]; eauto 6.
    + intros [H|[H|[q' [Hq [H|H]]]]]; try injection Hq as <-; auto.
  - split.
    + intros [[H|H]|[]]; auto.
    + intros [H|[H|[q' [Hq _]]]]; [auto | auto | discriminate].
Qed.

(** C4, counterexample: for the comment text " ?" the trimmed-prefix rule of
    the claim selects the node, [hasWorksheetComment] does not. *)
Lemma scanner_ignores_spaced_marker :
  hasWorksheetComment spacedMarker = false
  /\ isSelected_spec spacedMarker = true.
Proof. split; reflexivity. Qed.

(** C4, as amended: a node is selected if and only if some comment attached
    (leading or trailing) to the node or to its immediate parent has RAW
    text whose first character is the marker "?"; no trimming takes place,
    so a node all of whose comments begin with white space is not
    selected. *)
Theorem hasWorksheetComment_raw_prefix (p : Path) :
  (hasWorksheetComment p = true <->
   exists c rest,
     value c = String "?" rest
     /\ (In c (orEmpty (leadingComments (node p)))
         \/ In c (orEmpty (trailingComments (node p)))
         \/ exists q, parent p = Some q
              /\ (In c (orEmpty (leadingComments q))
                  \/ In c (orEmpty (trailingComments q)))))
  /\ ((forall c, In c (allNodeComments p) ->
         exists w r, value c = String w r /\ isWhiteSpace w = true) ->
      hasWorksheetComment p = false).
Proof.
  split.
  - unfold hasWorksheetComment. rewrite existsb_exists. split.
    + intros [c [Hin Hpre]]. apply startsWith_marker in Hpre as [rest Hv].
      exists c, rest. split; [exact Hv | now apply allNodeComments_In].
    + intros [c [rest [Hv Hin]]]. exists c. split.
      * now apply allNodeComments_In.
      * apply startsWith_marker. now exists rest.
  - intros Hall. unfold hasWorksheetComment.
    apply not_true_is_false. intros H. apply existsb_exists in H.
    destruct H as [c [Hin Hpre]].
    destruct (Hall c Hin) as [w [r [Hv Hw]]].
    rewrite Hv, (startsWith_whitespace w r Hw) in Hpre. discriminate.
Qed.

(* ------------------------------------------------------------------ *)
(** ** The expression-statement visitor *)

(** The selected statement [foo();] is not a call of a monitor entry point,
    and the visitor leaves it alone all the same: its guard exempts every
    call expression. *)
Lemma marked_call_statement_untouched :
  hasWorksheetComment markedCall = true
  /\ (exists e, shapeOf (node markedCall) = ExpressionStatement e
                /\ isMonitorCall_spec e = false)
  /\ visitExpressionStatement markedCall = None.
Proof.
  split; [reflexivity | split; [eexists; split; reflexivity | reflexivity]].
Qed.

(** Running the rewritten statement: the monitor runs its thunk, which
    evaluates the expression, and then the expression is evaluated again for
    the statement itself. *)
Lemma instrumented_expression_runs (evalExpr : Node -> thunk) (p : Path)
    (e : Node) (st : state) :
  t.isCallExpression e = false ->
  execStatement evalExpr
    (t.expressionStatement (t.sequenceExpression [expressionWatch p e; e])) st
  = match inlineDebuggerWatch (expressionData evalExpr p e) st with
    | (Normal _, st') =>
        match evalExpr e st' with
        | (Normal _, st'') => (Normal VUndefined, st'')
        | other => other
        end
    | other => other
    end.
Proof.
  intros Hcall.
  assert (He : evalCall evalExpr e = evalExpr e).
  { unfold evalCall. unfold t.isCallExpression in Hcall.
    destruct (shapeOf e); try reflexivity. discriminate. }
  change (execStatement evalExpr
            (t.expressionStatement
               (t.sequenceExpression [expressionWatch p e; e])) st)
    with (match
             match inlineDebuggerWatch (expressionData evalExpr p e) st with
             | (Normal _, st') => evalCall evalExpr e st'
             | other => other
             end
           with
           | (Normal _, st') => (Normal VUndefined, st')
           | other => other
           end).
  rewrite He.
  destruct (inlineDebuggerWatch (expressionData evalExpr p e) st)
    as [[v|v|] st']; reflexivity.
Qed.

(** One call of the visitor: a selected expression statement whose expression
    is not a call expression of any kind is handed to [replaceWith] as the
    statement [(inlineDebuggerWatch({type: "expression", filePath, line,
    called: () => { return E; }}), E);], in which the original expression
    stands twice; a selected statement whose expression is a call
    expression, whatever its callee, is left untouched, and so is every
    statement that is not selected. *)
Theorem visitExpressionStatement_spec (p : Path) (e : Node)
    (Hshape : shapeOf (node p) = ExpressionStatement e) :
  (hasWorksheetComment p = true -> t.isCallExpression e = false ->
   visitExpressionStatement p =
   Some (t.expressionStatement
           (t.sequenceExpression [expressionWatch p e; e]))
   /\ forall evalExpr st,
        execStatement evalExpr
          (t.expressionStatement
             (t.sequenceExpression [expressionWatch p e; e])) st
        = match inlineDebuggerWatch (expressionData evalExpr p e) st with
          | (Normal _, st') =>
              match evalExpr e st' with
              | (Normal _, st'') => (Normal VUndefined, st'')
              | other => other
              end
          | other => other
          end)
  /\ (t.isCallExpression e = true -> visitExpressionStatement p = None)
  /\ (hasWorksheetComment p = false -> visitExpressionStatement p = None).
Proof.
  unfold visitExpressionStatement. rewrite Hshape.
  split; [|split].
  - intros Hsel Hcall. rewrite Hsel, Hcall. split; [reflexivity|].
    intros evalExpr st. now apply instrumented_expression_runs.
  - intros ->. now destruct (hasWorksheetComment p).
  - intros ->. reflexivity.
Qed.

Lemma visitExpressionStatement_spec_witness :
  exists e,
    shapeOf (node markedSum) = ExpressionStatement e
    /\ visitExpressionStatement markedSum =
       Some (t.expressionStatement
               (t.sequenceExpression [expressionWatch markedSum e; e])).
Proof.
  eexists. split; [reflexivity|].
  apply (proj1 (visitExpressionStatement_spec markedSum _ eq_refl));
    reflexivity.
Defined.

(** The replacement carries the comments of the node it replaces, under the
    same parent: it is selected exactly when that node was. *)
Lemma replaceWith_built_comments (p : Path) (s : Shape) :
  allNodeComments (replaceWith p (built s)) = allNodeComments p.
Proof.
  unfold allNodeComments, replaceWith, built, inheritsComments, inherit.
  cbn [node parent leadingComments trailingComments orEmpty app].
  reflexivity.
Qed.

Lemma replaceWith_built_selected (p : Path) (s : Shape) :
  hasWorksheetComment (replaceWith p (built s)) = hasWorksheetComment p.
Proof.
  unfold hasWorksheetComment. now rewrite replaceWith_built_comments.
Qed.

Lemma visitExpressionStatement_fires (p : Path) (e : Node) :
  shapeOf (node p) = ExpressionStatement e ->
  hasWorksheetComment p = true ->
  t.isCallExpression e = false ->
  visitExpressionStatement p
  = Some (t.expressionStatement
            (t.sequenceExpression [expressionWatch p e; e])).
Proof.
  intros Hs Hsel Hcall. unfold visitExpressionStatement.
  now rewrite Hsel, Hs, Hcall.
Qed.

(** The visitor meets its own output again and again: the replacement is an
    expression statement, selected like the one before, whose expression is
    a sequence and so no call. *)
Lemma traverseExpressionStatement_diverges :
  forall fuel p e,
    shapeOf (node p) = ExpressionStatement e ->
    hasWorksheetComment p = true ->
    t.isCallExpression e = false ->
    traverseExpressionStatement fuel p = OutOfFuel.
Proof.
  induction fuel as [|fuel IH]; intros p e Hs Hsel Hcall;
    cbn [traverseExpressionStatement];
    rewrite (visitExpressionStatement_fires p e Hs Hsel Hcall);
    [reflexivity|].
  apply (IH _ (t.sequenceExpression [expressionWatch p e; e]));
    [reflexivity | | reflexivity].
  unfold t.expressionStatement. now rewrite replaceWith_built_selected.
Qed.

(** C5, the code at the failing input [2 + 3; //?] and at every selected
    expression statement whose expression is not a call: one call of the
    visitor builds the statement of the claim, the sequence of the monitor
    call and the expression; but [replaceWith] hands the marker comment on
    to that statement and requeues it, the visitor has no test for its own
    output, and so it fires on the replacement again, and on the replacement
    of the replacement: whatever depth the stack allows, the traversal does
    not come to an end, and no rewritten statement is ever produced.  The
    traversal ends only where the visitor leaves the node alone. *)
Theorem expression_statement_rewritten_without_end (p : Path) (e : Node)
    (Hshape : shapeOf (node p) = ExpressionStatement e)
    (Hsel : hasWorksheetComment p = true)
    (Hcall : t.isCallExpression e = false) :
  let n := t.expressionStatement
             (t.sequenceExpression [expressionWatch p e; e]) in
  visitExpressionStatement p = Some n
  /\ hasWorksheetComment (replaceWith p n) = true
  /\ visitExpressionStatement (replaceWith p n)
     = Some (t.expressionStatement
               (t.sequenceExpression
                  [expressionWatch (replaceWith p n)
                     (t.sequenceExpression [expressionWatch p e; e]);
                   t.sequenceExpression [expressionWatch p e; e]]))
  /\ (forall fuel, traverseExpressionStatement fuel p = OutOfFuel)
  /\ (forall fuel q,
        visitExpressionStatement q = None ->
        traverseExpressionStatement fuel q = Done (node q)).
Proof.
  intros n.
  assert (Hsel' : hasWorksheetComment (replaceWith p n) = true).
  { unfold n, t.expressionStatement.
    now rewrite replaceWith_built_selected. }
  split; [now apply visitExpressionStatement_fires|].
  split; [exact Hsel'|]. split; [|split].
  - apply visitExpressionStatement_fires; [reflexivity | exact Hsel' |].
    reflexivity.
  - intros fuel.
    exact (traverseExpressionStatement_diverges fuel p e Hshape Hsel Hcall).
  - intros fuel q Hq. destruct fuel; cbn [traverseExpressionStatement];
      now rewrite Hq.
Qed.

Lemma expression_statement_rewritten_without_end_witness :
  traverseExpressionStatement 1000 markedSum = OutOfFuel.
Proof.
  exact (proj1 (proj2 (proj2 (proj2
           (expression_statement_rewritten_without_end markedSum _
              eq_refl eq_refl eq_refl)))) 1000).
Defined.

(* ------------------------------------------------------------------ *)
(** ** Regular-expression matching *)

Lemma sapp_nil_r (s : string) : (s ++ "")%string = s.
Proof. induction s as [|c s IH]; simpl; [reflexivity | now rewrite IH]. Qed.

Lemma sapp_assoc (a b c : string) :
  ((a ++ b) ++ c)%string = (a ++ b ++ c)%string.
Proof. induction a as [|x a IH]; simpl; [reflexivity | now rewrite IH]. Qed.

(** A greedy star consumes a run of characters of its class and hands the
    rest to its continuation. *)
Lemma starGreedy_inv (cls : ascii -> bool) (k : string -> option string) :
  forall s m, starGreedy cls k s = Some m ->
  exists run s' m',
    s = (run ++ s')%string /\ allIn cls run = true
    /\ k s' = Some m' /\ m = (run ++ m')%string.
Proof.
  induction s as [|d s IH]; intros m H; simpl in H.
  - exists "", "", m. auto.
  - destruct (cls d) eqn:Hd.
    + destruct (starGreedy cls k s) as [m0|] eqn:Hs.
      * injection H as <-.
        destruct (IH m0 eq_refl) as (run & s' & m' & -> & Hrun & Hk & ->).
        exists (String d run), s', m'. simpl. rewrite Hd. auto.
      * exists "", (String d s), m. auto.
    + exists "", (String d s), m. auto.
Qed.

(** The matcher is sound: what it returns matches the pattern and is a
    prefix of the subject. *)
Lemma matchHere_sound (r : list rx) :
  forall s m, matchHere r s = Some m ->
  Matches r m /\ exists post, s = (m ++ post)%string.
Proof.
  induction r as [|[c|cls] r IH]; intros s m H; simpl in H.
  - injection H as <-. split; [constructor | now exists s].
  - destruct s as [|d s]; [discriminate|].
    destruct (Ascii.eqb_spec c d) as [<-|]; [|discriminate].
    destruct (matchHere r s) as [m0|] eqn:H0; [|discriminate].
    injection H as <-. destruct (IH _ _ H0) as [Hm [post ->]].
    split; [now constructor | now exists post].
  - apply starGreedy_inv in H as (run & s1 & m' & -> & Hrun & Hk & ->).
    destruct (IH _ _ Hk) as [Hm [post ->]].
    split; [now constructor | exists post; now rewrite sapp_assoc].
Qed.

Lemma Matches_lit (z : string) : forall m, Matches (lit z) m -> m = z.
Proof.
  induction z as [|c z IH]; intros m H; inversion H; subst; simpl.
  - reflexivity.
  - f_equal. auto.
Qed.

(** A text matching a pattern that opens with a literal opens with it. *)
Lemma Matches_opens (a : string) (r : list rx) :
  forall m, Matches (lit a ++ r) m -> exists m', m = (a ++ m')%string.
Proof.
  induction a as [|c a IH]; intros m H; simpl in *.
  - now exists m.
  - inversion H; subst. destruct (IH _ H3) as [m' ->]. now exists m'.
Qed.

(** A text matching a pattern that closes with a literal closes with it. *)
Lemma Matches_closes (z : string) (r : list rx) :
  forall m, Matches (r ++ lit z) m -> exists m', m = (m' ++ z)%string.
Proof.
  induction r as [|x r IH]; intros m H; simpl in H.
  - apply Matches_lit in H as ->. now exists "".
  - inversion H; subst.
    + destruct (IH _ H3) as [m' ->]. now exists (String c m').
    + destruct (IH _ H4) as [m' ->]. exists (run ++ m')%string.
      now rewrite sapp_assoc.
Qed.

(** [search] returns a piece of the subject. *)
Lemma search_substring (r : list rx) :
  forall s m, search r s = Some m ->
  exists pre post, s = (pre ++ m ++ post)%string.
Proof.
  induction s as [|c s IH]; intros m H; simpl in H.
  - destruct (matchHere r "") as [m0|] eqn:H0; [|discriminate].
    injection H as <-. apply matchHere_sound in H0 as [_ [post ->]].
    now exists "", post.
  - destruct (matchHere r (String c s)) as [m0|] eqn:H0.
    + injection H as <-. apply matchHere_sound in H0 as [_ [post H0]].
      exists "", post. exact H0.
    + destruct (IH _ H) as (pre & post & ->).
      now exists (String c pre), post.
Qed.

Lemma search_Matches (r : list rx) :
  forall s m, search r s = Some m -> Matches r m.
Proof.
  induction s as [|c s IH]; intros m H; simpl in H.
  - destruct (matchHere r "") as [m0|] eqn:H0; [|discriminate].
    injection H as <-. now apply matchHere_sound in H0.
  - destruct (matchHere r (String c s)) as [m0|] eqn:H0.
    + injection H as <-. now apply matchHere_sound in H0.
    + auto.
Qed.

Lemma Matches_delimited (a z : string) (r : list rx) :
  forall m, Matches (lit a ++ r ++ lit z) m ->
  exists body, m = (a ++ body ++ z)%string.
Proof.
  induction a as [|c a IH]; intros m H; simpl in *.
  - now apply Matches_closes in H.
  - inversion H; subst. destruct (IH _ H3) as [body ->]. now exists body.
Qed.

(** How the matcher splits a match of a concatenated pattern. *)
Lemma matchHere_app (r1 r2 : list rx) :
  forall s m, matchHere (r1 ++ r2) s = Some m ->
  exists m1 m2 s',
    s = (m1 ++ s')%string /\ m = (m1 ++ m2)%string
    /\ matchHere r2 s' = Some m2.
Proof.
  induction r1 as [|[c|cls] r1 IH]; intros s m H.
  - exists "", m, s. auto.
  - simpl in H. destruct s as [|d s]; [discriminate|].
    destruct (Ascii.eqb c d); [|discriminate].
    destruct (matchHere (r1 ++ r2) s) as [m0|] eqn:H0; [|discriminate].
    injection H as <-.
    destruct (IH _ _ H0) as (m1 & m2 & s' & -> & -> & H2).
    exists (String d m1), m2, s'. auto.
  - simpl in H.
    apply starGreedy_inv in H as (run & s1 & m' & -> & _ & Hk & ->).
    destruct (IH _ _ Hk) as (m1 & m2 & s' & -> & -> & H2).
    exists (run ++ m1)%string, m2, s'.
    now rewrite !sapp_assoc.
Qed.

(** The closing part of both patterns, any characters and then a brace:
    being greedy, it runs to the last brace of the subject. *)
Lemma closing_brace_none :
  forall s, starGreedy cls_any (matchHere (lit "}")) s = None ->
  occurs "}" s = false.
Proof.
  induction s as [|d s IH]; intros H; [reflexivity|].
  cbn [starGreedy cls_any] in H.
  destruct (starGreedy cls_any (matchHere (lit "}")) s); [discriminate|].
  cbn [matchHere lit] in H. cbn [occurs].
  destruct (Ascii.eqb "}" d); [discriminate|]. now rewrite IH.
Qed.

Lemma closing_brace_last :
  forall s m, starGreedy cls_any (matchHere (lit "}")) s = Some m ->
  exists post, s = (m ++ post)%string /\ occurs "}" post = false.
Proof.
  induction s as [|d s IH]; intros m H; [discriminate|].
  cbn [starGreedy cls_any] in H.
  destruct (starGreedy cls_any (matchHere (lit "}")) s) as [m0|] eqn:Hs.
  - injection H as <-. destruct (IH _ eq_refl) as (post & -> & Hpost).
    now exists post.
  - cbn [matchHere lit] in H.
    destruct (Ascii.eqb_spec "}" d) as [<-|]; [|discriminate].
    injection H as <-. exists s. split; [reflexivity|].
    now apply closing_brace_none.
Qed.

Lemma search_to_last_brace (r0 : list rx) :
  forall s m, search (r0 ++ [RStar cls_any] ++ lit "}") s = Some m ->
  exists pre post,
    s = (pre ++ m ++ post)%string /\ occurs "}" post = false.
Proof.
  assert (Hhere : forall s m,
            matchHere (r0 ++ [RStar cls_any] ++ lit "}") s = Some m ->
            exists post, s = (m ++ post)%string /\ occurs "}" post = false).
  { intros s m H.
    apply matchHere_app in H as (m1 & m2 & s' & -> & -> & H2).
    apply closing_brace_last in H2 as (post & -> & Hpost).
    exists post. now rewrite sapp_assoc. }
  induction s as [|c s IH]; intros m H; simpl in H.
  - destruct (matchHere _ "") as [m0|] eqn:H0; [|discriminate].
    injection H as <-. apply Hhere in H0 as (post & H0 & Hpost).
    now exists "", post.
  - destruct (matchHere _ (String c s)) as [m0|] eqn:H0.
    + injection H as <-. apply Hhere in H0 as (post & H0 & Hpost).
      now exists "", post.
    + destruct (IH _ H) as (pre & post & -> & Hpost).
      now exists (String c pre), post.
Qed.

(* ------------------------------------------------------------------ *)
(** ** Functions under the serializer *)

(** What [getFn] keeps is a piece of the source text that opens with
    [function], closes with a brace, and has no brace after it. *)
Lemma getFn_text (src fn : string) :
  getFn src = Some fn ->
  (exists pre post,
     src = (pre ++ fn ++ post)%string /\ occurs "}" post = false)
  /\ exists body, fn = ("function" ++ body ++ "}")%string.
Proof.
  intros H. split.
  - apply (search_to_last_brace
             (lit "function" ++ [RStar cls_s; RStar cls_w; RStar cls_s]
              ++ lit "(" ++ [RStar cls_not_rparen] ++ lit ")" ++ [RStar cls_s]
              ++ lit "{")).
    exact H.
  - apply search_Matches in H.
    apply (Matches_delimited "function" "}"
             ([RStar cls_s; RStar cls_w; RStar cls_s] ++ lit "("
              ++ [RStar cls_not_rparen] ++ lit ")" ++ [RStar cls_s] ++ lit "{"
              ++ [RStar cls_any])).
    exact H.
Qed.

(** What [getArrowFn] keeps is a piece of the source text that opens with a
    parenthesis, closes with a brace, and has no brace after it. *)
Lemma getArrowFn_text (src fn : string) :
  getArrowFn src = Some fn ->
  (exists pre post,
     src = (pre ++ fn ++ post)%string /\ occurs "}" post = false)
  /\ exists body, fn = ("(" ++ body ++ "}")%string.
Proof.
  intros H. split.
  - apply (search_to_last_brace
             (lit "(" ++ [RStar cls_not_rparen] ++ lit ")" ++ [RStar cls_s]
              ++ lit "=>" ++ [RStar cls_s] ++ lit "{")).
    exact H.
  - apply search_Matches in H.
    apply (Matches_delimited "(" "}"
             ([RStar cls_not_rparen] ++ lit ")" ++ [RStar cls_s] ++ lit "=>"
              ++ [RStar cls_s] ++ lit "{" ++ [RStar cls_any])).
    exact H.
Qed.

Lemma occurs_app (c : ascii) (a b : string) :
  occurs c (a ++ b)%string = occurs c a || occurs c b.
Proof.
  induction a as [|d a IH]; simpl; [reflexivity|].
  now rewrite IH, orb_assoc.
Qed.

Lemma closes_with_brace_occurs (src pre fn post a body : string) :
  src = (pre ++ fn ++ post)%string -> fn = (a ++ body ++ "}")%string ->
  occurs "}" src = true.
Proof.
  intros -> ->. rewrite !occurs_app. simpl.
  now rewrite !orb_true_r.
Qed.

(** The matcher is complete: where some prefix of the subject matches the
    pattern, the backtracking matcher finds a match there. *)
Lemma starGreedy_complete (cls : ascii -> bool)
    (k : string -> option string) :
  forall run s, allIn cls run = true -> (exists m, k s = Some m) ->
  exists m, starGreedy cls k (run ++ s)%string = Some m.
Proof.
  induction run as [|d run IH]; intros s Hrun [m Hk].
  - cbn [append]. destruct s as [|d s]; cbn [starGreedy]; [eauto|].
    destruct (cls d); [destruct (starGreedy cls k s)|]; eauto.
  - cbn [allIn] in Hrun. apply andb_prop in Hrun as [Hd Hrun].
    cbn [append starGreedy]. rewrite Hd.
    destruct (IH s Hrun (ex_intro _ m Hk)) as [m' ->]. eauto.
Qed.

Lemma matchHere_complete (r : list rx) (m : string) :
  Matches r m ->
  forall post, exists m', matchHere r (m ++ post)%string = Some m'.
Proof.
  induction 1 as [|c r m _ IH|cls r run m Hrun _ IH]; intros post.
  - now exists "".
  - cbn [append matchHere]. rewrite Ascii.eqb_refl.
    destruct (IH post) as [m' ->]. cbn [option_map]. eauto.
  - cbn [matchHere]. rewrite sapp_assoc.
    apply starGreedy_complete; [exact Hrun | apply IH].
Qed.

Lemma search_here (r : list rx) (s m : string) :
  matchHere r s = Some m -> search r s = Some m.
Proof. intros H. destruct s; cbn [search]; now rewrite H. Qed.

Lemma Matches_app (r1 r2 : list rx) (m1 m2 : string) :
  Matches r1 m1 -> Matches r2 m2 -> Matches (r1 ++ r2) (m1 ++ m2)%string.
Proof.
  intros H1 H2.
  induction H1 as [|c r m _ IH|cls r run m Hrun _ IH]; cbn [app append].
  - exact H2.
  - now constructor.
  - rewrite sapp_assoc. now constructor.
Qed.

Lemma Matches_lit_self (z : string) : Matches (lit z) z.
Proof. induction z as [|c z IH]; cbn [lit]; now constructor. Qed.

Lemma Matches_run (cls : ascii -> bool) (run : string) :
  allIn cls run = true -> Matches [RStar cls] run.
Proof.
  intros Hrun. rewrite <- (sapp_nil_r run).
  constructor; [exact Hrun | constructor].
Qed.

Lemma allIn_any (s : string) : allIn cls_any s = true.
Proof. induction s as [|c s IH]; [reflexivity | exact IH]. Qed.

Lemma fn_regex_matches (w1 name w2 params w3 body : string) :
  allIn cls_s w1 = true -> allIn cls_w name = true ->
  allIn cls_s w2 = true -> allIn cls_not_rparen params = true ->
  allIn cls_s w3 = true ->
  Matches fn_regex (conventionalSource w1 name w2 params w3 body).
Proof.
  intros H1 Hn H2 Hp H3. unfold conventionalSource.
  change fn_regex
    with (lit "function" ++ [RStar cls_s] ++ [RStar cls_w] ++ [RStar cls_s]
          ++ lit "(" ++ [RStar cls_not_rparen] ++ lit ")" ++ [RStar cls_s]
          ++ lit "{" ++ [RStar cls_any] ++ lit "}").
  apply Matches_app; [apply Matches_lit_self|].
  apply Matches_app; [now apply Matches_run|].
  apply Matches_app; [now apply Matches_run|].
  apply Matches_app; [now apply Matches_run|].
  apply Matches_app; [apply Matches_lit_self|].
  apply Matches_app; [now apply Matches_run|].
  apply Matches_app; [apply Matches_lit_self|].
  apply Matches_app; [now apply Matches_run|].
  apply Matches_app; [apply Matches_lit_self|].
  apply Matches_app; [apply Matches_run, allIn_any|].
  apply Matches_lit_self.
Qed.

Lemma arrow_regex_matches (params w1 w2 body : string) :
  allIn cls_not_rparen params = true ->
  allIn cls_s w1 = true -> allIn cls_s w2 = true ->
  Matches arrow_regex (blockArrowSource params w1 w2 body).
Proof.
  intros Hp H1 H2. unfold blockArrowSource, arrow_regex.
  apply Matches_app; [apply Matches_lit_self|].
  apply Matches_app; [now apply Matches_run|].
  apply Matches_app; [apply Matches_lit_self|].
  apply Matches_app; [now apply Matches_run|].
  apply Matches_app; [apply Matches_lit_self|].
  apply Matches_app; [now apply Matches_run|].
  apply Matches_app; [apply Matches_lit_self|].
  apply Matches_app; [apply Matches_run, allIn_any|].
  apply Matches_lit_self.
Qed.

(** A match that leaves no closing brace behind, in a subject that closes
    with a brace, is the whole subject. *)
Lemma nothing_after_last_brace :
  forall m x post,
    (x ++ "}")%string = (m ++ post)%string -> occurs "}" post = false ->
    post = "".
Proof.
  induction m as [|c m IH]; intros x post H Hpost.
  - cbn [append] in H. subst post. rewrite occurs_app in Hpost.
    cbn in Hpost. rewrite orb_true_r in Hpost. discriminate.
  - destruct x as [|d x]; cbn [append] in H.
    + injection H as _ H. destruct m; [|discriminate].
      cbn [append] in H. now subst post.
    + injection H as _ H. exact (IH x post H Hpost).
Qed.

Lemma matchHere_to_last_brace (r0 : list rx) (s m : string) :
  matchHere (r0 ++ [RStar cls_any] ++ lit "}") s = Some m ->
  exists post, s = (m ++ post)%string /\ occurs "}" post = false.
Proof.
  intros H. apply matchHere_app in H as (m1 & m2 & s' & -> & -> & H2).
  apply closing_brace_last in H2 as (post & -> & Hpost).
  exists post. now rewrite sapp_assoc.
Qed.

(** The source of a conventional function is kept whole by [getFn], that of
    a block-bodied arrow with a parenthesised parameter list by
    [getArrowFn]. *)
Lemma getFn_conventional (w1 name w2 params w3 body : string) :
  allIn cls_s w1 = true -> allIn cls_w name = true ->
  allIn cls_s w2 = true -> allIn cls_not_rparen params = true ->
  allIn cls_s w3 = true ->
  getFn (conventionalSource w1 name w2 params w3 body)
  = Some (conventionalSource w1 name w2 params w3 body).
Proof.
  intros H1 Hn H2 Hp H3.
  pose proof (fn_regex_matches w1 name w2 params w3 body H1 Hn H2 Hp H3)
    as Hm.
  destruct (matchHere_complete _ _ Hm "") as [m' Hm'].
  rewrite sapp_nil_r in Hm'.
  destruct (matchHere_to_last_brace
              (lit "function" ++ [RStar cls_s; RStar cls_w; RStar cls_s]
               ++ lit "(" ++ [RStar cls_not_rparen] ++ lit ")"
               ++ [RStar cls_s] ++ lit "{") _ _ Hm')
    as (post & Hs & Hpost).
  assert (Hend : post = "").
  { apply (nothing_after_last_brace m'
             ("function" ++ w1 ++ name ++ w2 ++ "(" ++ params ++ ")" ++ w3
              ++ "{" ++ body)%string); [|exact Hpost].
    rewrite <- Hs. unfold conventionalSource.
    now rewrite !sapp_assoc. }
  subst post. rewrite sapp_nil_r in Hs. subst m'.
  unfold getFn. now apply search_here.
Qed.

Lemma getArrowFn_block (params w1 w2 body : string) :
  allIn cls_not_rparen params = true ->
  allIn cls_s w1 = true -> allIn cls_s w2 = true ->
  getArrowFn (blockArrowSource params w1 w2 body)
  = Some (blockArrowSource params w1 w2 body).
Proof.
  intros Hp H1 H2.
  pose proof (arrow_regex_matches params w1 w2 body Hp H1 H2) as Hm.
  destruct (matchHere_complete _ _ Hm "") as [m' Hm'].
  rewrite sapp_nil_r in Hm'.
  destruct (matchHere_to_last_brace
              (lit "(" ++ [RStar cls_not_rparen] ++ lit ")" ++ [RStar cls_s]
               ++ lit "=>" ++ [RStar cls_s] ++ lit "{") _ _ Hm')
    as (post & Hs & Hpost).
  assert (Hend : post = "").
  { apply (nothing_after_last_brace m'
             ("(" ++ params ++ ")" ++ w1 ++ "=>" ++ w2 ++ "{" ++ body)%string);
      [|exact Hpost].
    rewrite <- Hs. unfold blockArrowSource.
    now rewrite !sapp_assoc. }
  subst post. rewrite sapp_nil_r in Hs. subst m'.
  unfold getArrowFn. now apply search_here.
Qed.

(** Without a closing brace in the source neither pattern matches. *)
Lemma braceless_unmatched (src : string) :
  occurs "}" src = false -> getFn src = None /\ getArrowFn src = None.
Proof.
  intros Hbrace. split.
  - destruct (getFn src) as [fn|] eqn:H; [|reflexivity].
    destruct (getFn_text src fn H) as [(pre & post & Hs & _) (body & Hb)].
    rewrite (closes_with_brace_occurs _ _ _ _ _ _ Hs Hb) in Hbrace.
    discriminate.
  - destruct (getArrowFn src) as [fn|] eqn:H; [|reflexivity].
    destruct (getArrowFn_text src fn H) as [(pre & post & Hs & _) (body & Hb)].
    rewrite (closes_with_brace_occurs _ _ _ _ _ _ Hs Hb) in Hbrace.
    discriminate.
Qed.


(** The patterns at work: a conventional function is kept whole; an arrow
    function with an expression body can still hold a match of the arrow
    pattern inside, which is then what is written for it; and an arrow
    function that returns a conventional one is written as the inner
    function, since [getFn] is asked first. *)
Example patterns_at_work :
  getFn "function add(a, b) { return a + b; }"
  = Some "function add(a, b) { return a + b; }"
  /\ getArrowFn "(x) => ({a: () => {}})" = Some "({a: () => {}}"
  /\ tryToStringify [] (VFun "() => { return function () {}; }")
     = Some (quoteJSON "function () {}; }").
Proof. repeat split; reflexivity. Qed.


(* ------------------------------------------------------------------ *)
(** ** Termination of the serializer

    Every object the traversal enters has just been pushed on the cache, and
    an object on the cache is never entered again; so the nesting of calls is
    bounded by the number of objects of the heap. *)

Lemma inCache_In (l : loc) (cache : list loc) :
  inCache l cache = true <-> In l cache.
Proof.
  unfold inCache. rewrite existsb_exists. split.
  - intros [x [Hin Heq]]. apply Nat.eqb_eq in Heq. now subst.
  - intros Hin. exists l. split; [exact Hin | apply Nat.eqb_refl].
Qed.

Lemma inCache_false (l : loc) (cache : list loc) :
  inCache l cache = false <-> ~ In l cache.
Proof.
  rewrite <- inCache_In. destruct (inCache l cache); split; intros H;
    try reflexivity; try discriminate; try (intros H'; discriminate).
  exfalso. now apply H.
Qed.

Lemma filter_length_le (A : Type) (f g : A -> bool) (l : list A) :
  (forall x, f x = true -> g x = true) ->
  List.length (filter f l) <= List.length (filter g l).
Proof.
  intros Hfg. induction l as [|a l IH]; simpl; [lia|].
  destruct (f a) eqn:Hf.
  - rewrite (Hfg _ Hf). simpl. lia.
  - destruct (g a); simpl; lia.
Qed.

Lemma filter_length_lt (A : Type) (f g : A -> bool) (l : list A) (a : A) :
  (forall x, f x = true -> g x = true) ->
  In a l -> f a = false -> g a = true ->
  List.length (filter f l) < List.length (filter g l).
Proof.
  intros Hfg Hin Hf Hg. induction l as [|b l IH]; simpl; [contradiction|].
  destruct Hin as [->|Hin].
  - rewrite Hf, Hg. simpl.
    pose proof (filter_length_le A f g l Hfg). lia.
  - specialize (IH Hin). destruct (f b) eqn:Hfb.
    + rewrite (Hfg _ Hfb). simpl. lia.
    + destruct (g b); simpl; lia.
Qed.

Lemma unvisited_mono (h : heap) (c c' : list loc) :
  incl c c' -> unvisited h c' <= unvisited h c.
Proof.
  intros Hincl. unfold unvisited. apply filter_length_le.
  intros x Hx. apply negb_true_iff in Hx. apply negb_true_iff.
  apply inCache_false. apply inCache_false in Hx. auto.
Qed.

Lemma unvisited_push (h : heap) (c : list loc) (l : loc) :
  l < List.length h -> inCache l c = false ->
  unvisited h (c ++ [l]) < unvisited h c.
Proof.
  intros Hl Hc. unfold unvisited. apply filter_length_lt with (a := l).
  - intros x Hx. apply negb_true_iff in Hx. apply negb_true_iff.
    apply inCache_false. apply inCache_false in Hx.
    intros Hin. apply Hx. apply in_or_app. now left.
  - apply in_seq. lia.
  - apply negb_false_iff. apply inCache_In. apply in_or_app. right. now left.
  - now rewrite Hc.
Qed.

(** The replacer only ever adds to the cache. *)
Lemma replacer_incl (h : heap) (c c1 : list loc) (v v1 : val) :
  replacer h c v = (c1, v1) -> incl c c1.
Proof.
  unfold replacer. intros H.
  destruct v; try (injection H as <- _; apply incl_refl).
  - destruct (truthy (get_then h (VRef l)));
      [injection H as <- _; apply incl_refl|].
    destruct (inCache l c); injection H as <- _;
      [apply incl_refl | apply incl_appl, incl_refl].
Qed.

(** It hands an object on only when the object is new to the cache, and
    then pushes it. *)
Lemma replacer_ref (h : heap) (c c1 : list loc) (v : val) (l : loc) :
  replacer h c v = (c1, VRef l) ->
  v = VRef l /\ inCache l c = false /\ c1 = c ++ [l].
Proof.
  unfold replacer. intros H. destruct v; try discriminate.
  - destruct (getFn src); [discriminate|].
    destruct (getArrowFn src); discriminate.
  - destruct (truthy (get_then h (VRef l0))); [discriminate|].
    destruct (inCache l0 c) eqn:Hc; [discriminate|].
    injection H as <- <-. auto.
Qed.

Section SerializeAll.

Variable rec : list loc -> val -> sres (list loc * option string).

Hypothesis rec_incl :
  forall c v c' s, rec c v = Done (c', s) -> incl c c'.

Lemma serializeAll_incl :
  forall vs c c' ss, serializeAll rec c vs = Done (c', ss) -> incl c c'.
Proof.
  induction vs as [|v vs IH]; intros c c' ss H; simpl in H.
  - injection H as <- _. apply incl_refl.
  - destruct (rec c v) as [[c1 s]| |] eqn:Hr; try discriminate.
    destruct (serializeAll rec c1 vs) as [[c2 ss']| |] eqn:Hs;
      try discriminate.
    injection H as <- _.
    eapply incl_tran; [eapply rec_incl; eassumption | eapply IH; eassumption].
Qed.

(** If the recursive call never runs out of budget from a cache that
    extends [c0], neither does the traversal of a list. *)
Lemma serializeAll_fuel (c0 : list loc) :
  (forall c v, incl c0 c -> rec c v <> OutOfFuel) ->
  forall vs c, incl c0 c -> serializeAll rec c vs <> OutOfFuel.
Proof.
  intros Hrec. induction vs as [|v vs IH]; intros c Hc; simpl.
  - discriminate.
  - destruct (rec c v) as [[c1 s]| |] eqn:Hr.
    + assert (Hc1 : incl c0 c1)
        by (eapply incl_tran; [exact Hc | eapply rec_incl; eassumption]).
      specialize (IH c1 Hc1).
      destruct (serializeAll rec c1 vs) as [[c2 ss]| |];
        [discriminate | discriminate | contradiction].
    + discriminate.
    + exfalso. exact (Hrec c v Hc Hr).
Qed.

(** The same for the circular-structure error. *)
Lemma serializeAll_no_cycle (c0 : list loc) :
  (forall c v, incl c0 c -> rec c v <> Raised circularMessage) ->
  forall vs c, incl c0 c -> serializeAll rec c vs <> Raised circularMessage.
Proof.
  intros Hrec. induction vs as [|v vs IH]; intros c Hc; simpl.
  - discriminate.
  - destruct (rec c v) as [[c1 s]| |] eqn:Hr.
    + assert (Hc1 : incl c0 c1)
        by (eapply incl_tran; [exact Hc | eapply rec_incl; eassumption]).
      specialize (IH c1 Hc1).
      destruct (serializeAll rec c1 vs) as [[c2 ss]|m|];
        [discriminate | | discriminate].
      intros E. apply IH. exact E.
    + intros E. apply (Hrec c v Hc). rewrite Hr. injection E as ->.
      reflexivity.
    + discriminate.
Qed.

End SerializeAll.

(** Two recursive calls that agree wherever the first one finishes give the
    same traversal wherever the first traversal finishes. *)
Lemma serializeAll_ext
    (rec1 rec2 : list loc -> val -> sres (list loc * option string)) :
  (forall c v, rec1 c v <> OutOfFuel -> rec2 c v = rec1 c v) ->
  forall vs c, serializeAll rec1 c vs <> OutOfFuel ->
  serializeAll rec2 c vs = serializeAll rec1 c vs.
Proof.
  intros Hext. induction vs as [|v vs IH]; intros c H; simpl in *.
  - reflexivity.
  - destruct (rec1 c v) as [[c1 s]| |] eqn:Hr.
    + rewrite (Hext c v) by (rewrite Hr; discriminate). rewrite Hr.
      rewrite IH; [reflexivity|].
      destruct (serializeAll rec1 c1 vs) as [[c2 ss]| |];
        [discriminate | discriminate | exact H].
    + rewrite (Hext c v) by (rewrite Hr; discriminate). now rewrite Hr.
    + contradiction.
Qed.

Lemma serializeProperty_incl (h : heap) :
  forall fuel c st v c' s,
    serializeProperty fuel h c st v = Done (c', s) -> incl c c'.
Proof.
  induction fuel as [|fuel IH]; intros c st v c' s H; [discriminate|].
  cbn [serializeProperty] in H.
  destruct (replacer h c v) as [c1 v1] eqn:Hr.
  apply replacer_incl in Hr.
  destruct v1 as [| |[|]| | | | |l|];
    try (injection H as <- _; exact Hr); try discriminate.
  destruct (inCache l st); [discriminate|].
  destruct (deref h l) as [props|elems|msg props].
  - destruct (serializeAll _ c1 (map snd props)) as [[c2 ss]| |] eqn:Hs;
      try discriminate.
    injection H as <- _. eapply incl_tran; [exact Hr|].
    eapply serializeAll_incl; [|exact Hs].
    intros a x a' s' Ha. exact (IH _ _ _ _ _ Ha).
  - destruct (serializeAll _ c1 elems) as [[c2 ss]| |] eqn:Hs;
      try discriminate.
    injection H as <- _. eapply incl_tran; [exact Hr|].
    eapply serializeAll_incl; [|exact Hs].
    intros a x a' s' Ha. exact (IH _ _ _ _ _ Ha).
  - destruct (serializeAll _ c1 (map snd props)) as [[c2 ss]| |] eqn:Hs;
      try discriminate.
    injection H as <- _. eapply incl_tran; [exact Hr|].
    eapply serializeAll_incl; [|exact Hs].
    intros a x a' s' Ha. exact (IH _ _ _ _ _ Ha).
Qed.

(** Enough budget: more than the number of objects not yet visited. *)
Lemma serializeProperty_enough (h : heap) :
  forall fuel c st v,
    unvisited h c < fuel -> serializeProperty fuel h c st v <> OutOfFuel.
Proof.
  induction fuel as [|fuel IH]; intros c st v Hlt; [lia|].
  cbn [serializeProperty].
  destruct (replacer h c v) as [c1 v1] eqn:Hr.
  destruct v1 as [| |[|]| | | | |l|]; try discriminate.
  apply replacer_ref in Hr as (-> & Hnew & ->).
  destruct (inCache l st); [discriminate|].
  assert (Hkids : forall vs,
            serializeAll
              (fun c x => serializeProperty fuel h c (st ++ [l]) x)
              (c ++ [l]) vs <> OutOfFuel \/ List.length h <= l).
  { intros vs. destruct (Nat.lt_ge_cases l (List.length h)) as [Hl|Hl];
      [left | now right].
    apply serializeAll_fuel with (c0 := c ++ [l]).
    - intros a x a' s' Ha. exact (serializeProperty_incl h _ _ _ _ _ _ Ha).
    - intros c' x Hc'. apply IH.
      pose proof (unvisited_push h c l Hl Hnew).
      pose proof (unvisited_mono h _ _ Hc'). lia.
    - apply incl_refl. }
  destruct (Nat.lt_ge_cases l (List.length h)) as [Hl|Hl].
  - destruct (deref h l) as [props|elems|msg props].
    + destruct (Hkids (map snd props)) as [Hk|Hk]; [|lia].
      destruct (serializeAll _ (c ++ [l]) (map snd props)) as [[c2 ss]| |];
        [discriminate | discriminate | contradiction].
    + destruct (Hkids elems) as [Hk|Hk]; [|lia].
      destruct (serializeAll _ (c ++ [l]) elems) as [[c2 ss]| |];
        [discriminate | discriminate | contradiction].
    + destruct (Hkids (map snd props)) as [Hk|Hk]; [|lia].
      destruct (serializeAll _ (c ++ [l]) (map snd props)) as [[c2 ss]| |];
        [discriminate | discriminate | contradiction].
  - unfold deref. rewrite nth_overflow by exact Hl. discriminate.
Qed.


(** A larger budget changes nothing once the traversal finishes. *)
Lemma serializeProperty_more_fuel (h : heap) :
  forall fuel fuel' c st v,
    fuel <= fuel' ->
    serializeProperty fuel h c st v <> OutOfFuel ->
    serializeProperty fuel' h c st v = serializeProperty fuel h c st v.
Proof.
  induction fuel as [|fuel IH]; intros fuel' c st v Hle H;
    [now contradiction H|].
  destruct fuel' as [|fuel']; [lia|].
  cbn [serializeProperty] in *.
  destruct (replacer h c v) as [c1 v1] eqn:Hr.
  destruct v1 as [| |[|]| | | | |l|]; try reflexivity.
  destruct (inCache l st); [reflexivity|].
  assert (Hext : forall vs,
            serializeAll (fun c x => serializeProperty fuel h c (st ++ [l]) x)
                         c1 vs <> OutOfFuel ->
            serializeAll (fun c x => serializeProperty fuel' h c (st ++ [l]) x)
                         c1 vs
            = serializeAll
                (fun c x => serializeProperty fuel h c (st ++ [l]) x) c1 vs).
  { intros vs. apply serializeAll_ext.
    intros a x Ha. apply IH; [lia | exact Ha]. }
  destruct (deref h l) as [props|elems|msg props].
  - rewrite Hext; [reflexivity|].
    destruct (serializeAll _ c1 (map snd props)) as [[c2 ss]| |];
      [discriminate | discriminate | now contradiction H].
  - rewrite Hext; [reflexivity|].
    destruct (serializeAll _ c1 elems) as [[c2 ss]| |];
      [discriminate | discriminate | now contradiction H].
  - rewrite Hext; [reflexivity|].
    destruct (serializeAll _ c1 (map snd props)) as [[c2 ss]| |];
      [discriminate | discriminate | now contradiction H].
Qed.

(** The engine's own circular-structure error is never met: whatever is on
    its stack is on the cache, and the replacer hands over nothing that is
    on the cache. *)
Lemma serializeProperty_no_cycle (h : heap) :
  forall fuel c st v,
    incl st c ->
    serializeProperty fuel h c st v <> Raised circularMessage.
Proof.
  induction fuel as [|fuel IH]; intros c st v Hst; [discriminate|].
  cbn [serializeProperty].
  destruct (replacer h c v) as [c1 v1] eqn:Hr.
  destruct v1 as [| |[|]| | | | |l|]; try discriminate.
  apply replacer_ref in Hr as (-> & Hnew & ->).
  destruct (inCache l st) eqn:Hl.
  { apply inCache_In in Hl. apply inCache_false in Hnew.
    exfalso. apply Hnew. now apply Hst. }
  assert (Hkids : forall vs,
            serializeAll
              (fun c x => serializeProperty fuel h c (st ++ [l]) x)
              (c ++ [l]) vs <> Raised circularMessage).
  { intros vs. apply serializeAll_no_cycle with (c0 := c ++ [l]).
    - intros a x a' s' Ha. exact (serializeProperty_incl h _ _ _ _ _ _ Ha).
    - intros c' x Hc'. apply IH.
      intros y Hy. apply Hc'. apply in_app_or in Hy as [Hy|Hy].
      + apply in_or_app. left. now apply Hst.
      + apply in_or_app. now right.
    - apply incl_refl. }
  destruct (deref h l) as [props|elems|msg props].
  - specialize (Hkids (map snd props)).
    destruct (serializeAll _ (c ++ [l]) (map snd props)) as [[c2 ss]|m|];
      [discriminate | | discriminate].
    intros E. apply Hkids. injection E as ->. reflexivity.
  - specialize (Hkids elems).
    destruct (serializeAll _ (c ++ [l]) elems) as [[c2 ss]|m|];
      [discriminate | | discriminate].
    intros E. apply Hkids. injection E as ->. reflexivity.
  - specialize (Hkids (map snd props)).
    destruct (serializeAll _ (c ++ [l]) (map snd props)) as [[c2 ss]|m|];
      [discriminate | | discriminate].
    intros E. apply Hkids. injection E as ->. reflexivity.
Qed.

(** An object already on the cache comes back from the replacer as
    [undefined]: nothing is written for it, it is not entered, and the
    cache stays as it is. *)
Lemma serializeProperty_revisit (h : heap) (fuel : nat) (c st : list loc)
    (l : loc) :
  inCache l c = true -> truthy (get_then h (VRef l)) = false ->
  serializeProperty (S fuel) h c st (VRef l) = Done (c, None).
Proof.
  intros Hc Hthen. cbn [serializeProperty replacer].
  now rewrite Hthen, Hc.
Qed.

(** At the root something is always written: [stringify] never returns
    [undefined]. *)
Lemma stringify_root_defined (h : heap) (v : val) :
  stringify h v <> Done None.
Proof.
  unfold stringify. cbn [serializeProperty].
  destruct (replacer h [] v) as [c1 v1] eqn:Hr.
  destruct v1 as [| |[|]| | | | |l|]; try discriminate.
  - exfalso. unfold replacer in Hr. destruct v; try discriminate.
    + destruct (getFn src); [discriminate|].
      destruct (getArrowFn src); discriminate.
    + destruct (truthy (get_then h (VRef l))); discriminate.
  - exfalso. unfold replacer in Hr. destruct v; try discriminate.
    + destruct (getFn src0); [discriminate|].
      destruct (getArrowFn src0); discriminate.
    + destruct (truthy (get_then h (VRef l))); discriminate.
  - cbn [inCache existsb].
    destruct (deref h l) as [props|elems|msg props].
    + destruct (serializeAll _ c1 (map snd props)) as [[c2 ss]| |];
        discriminate.
    + destruct (serializeAll _ c1 elems) as [[c2 ss]| |]; discriminate.
    + destruct (serializeAll _ c1 (map snd props)) as [[c2 ss]| |];
        discriminate.
Qed.

Lemma stringify_terminates (h : heap) (v : val) :
  stringify h v <> OutOfFuel.
Proof.
  unfold stringify.
  pose proof (serializeProperty_enough h (S (List.length h)) [] [] v) as H.
  destruct (serializeProperty (S (List.length h)) h [] [] v) as [[c s]| |];
    try discriminate.
  exfalso. apply H; [|reflexivity].
  unfold unvisited. simpl.
  pose proof (filter_length_le _ (fun _ : loc => true) (fun _ => true)
                (seq 0 (List.length h)) (fun _ H => H)).
  assert (Hf : forall l : list loc,
             List.length (filter (fun _ => true) l) = List.length l)
    by (induction l; simpl; congruence).
  rewrite Hf, length_seq. lia.
Qed.

Example stringify_self_reference :
  tryToStringify cyclicHeap (VRef 0)
  = Some (String "{" (quoteJSON "name" ++ ":" ++ quoteJSON "a" ++ "}"))%string
  /\ tryToStringify cyclicHeap (VRef 1)
     = Some "[Error stringifying: Do not know how to serialize a BigInt]"
  /\ tryToStringify [Arr [VRef 0; VNum 7]] (VRef 0) = Some "[null,7]".
Proof. repeat split; reflexivity. Qed.

(** On data, that is on the values of [val] in a heap, cyclic or not:
    [stringify] finishes within its budget of one nested call per object of
    the heap (and gives the same result under any larger budget), with a
    text or with an exception of the engine; an object already in the cache
    is answered with [undefined] by the replacer, so it is left out (written
    null in an array slot) and not entered again, and the cache is
    unchanged; the engine's circular-structure error never arises; and
    [tryToStringify] returns the text, or the diagnostic built from the
    exception's message. *)
Lemma tryToStringify_total (h : heap) (v : val) :
  (exists s, stringify h v = Done (Some s) \/ stringify h v = Raised s)
  /\ (forall fuel, S (List.length h) <= fuel ->
        serializeProperty fuel h [] [] v
        = serializeProperty (S (List.length h)) h [] [] v)
  /\ (forall fuel c st l,
        inCache l c = true -> truthy (get_then h (VRef l)) = false ->
        serializeProperty (S fuel) h c st (VRef l) = Done (c, None))
  /\ stringify h v <> Raised circularMessage
  /\ (exists s, tryToStringify h v = Some s)
  /\ (forall s, stringify h v = Done s -> tryToStringify h v = s)
  /\ (forall m, stringify h v = Raised m ->
        tryToStringify h v = Some ("[Error stringifying: " ++ m ++ "]")%string).
Proof.
  pose proof (stringify_terminates h v) as Hfuel.
  pose proof (stringify_root_defined h v) as Hroot.
  repeat split.
  - destruct (stringify h v) as [[s|]|m|];
      [exists s; now left | now contradiction Hroot | exists m; now right
      | now contradiction Hfuel].
  - intros fuel Hle. apply serializeProperty_more_fuel; [exact Hle|].
    apply serializeProperty_enough. unfold unvisited. simpl.
    assert (Hf : forall l : list loc,
               List.length (filter (fun _ => true) l) = List.length l)
      by (induction l; simpl; congruence).
    rewrite Hf, length_seq. lia.
  - intros fuel c st l. apply serializeProperty_revisit.
  - unfold stringify.
    pose proof (serializeProperty_no_cycle h (S (List.length h)) [] [] v
                  (incl_refl _)) as Hc.
    destruct (serializeProperty (S (List.length h)) h [] [] v) as [[c s]|m|];
      [discriminate | | discriminate].
    intros E. apply Hc. injection E as ->. reflexivity.
  - unfold tryToStringify.
    destruct (stringify h v) as [[s|]|m|]; eauto. now contradiction Hroot.
  - intros s Hs. unfold tryToStringify. now rewrite Hs.
  - intros m Hm. unfold tryToStringify. now rewrite Hm.
Qed.

Lemma tryToStringify_defined (h : heap) (v : val) :
  exists s, tryToStringify h v = Some s.
Proof.
  unfold tryToStringify.
  pose proof (stringify_root_defined h v) as Hroot.
  destruct (stringify h v) as [[s|]|m|]; eauto. now contradiction Hroot.
Qed.

(** C9, the code at the failing input
    [tryToStringify({ toJSON() { throw null; } })]: [JSON.stringify] calls
    the method, which raises [null]; the [catch] arm of [tryToStringify]
    reads [error.message] of what was raised, and for [null] (and for
    [undefined]) that read raises a [TypeError], which leaves the entry
    point.  Every other raised value is turned into the diagnostic string;
    on data the entry point always returns a string, the one
    [tryToStringify] computes; and a symbol makes it return [undefined]. *)
Theorem tryToStringify_host_escapes (toStringHost : heap -> val -> string)
    (h : heap) :
  stringify_host h (ToJSONThrows VNull) = Raises (Value VNull)
  /\ tryToStringify_host toStringHost h (ToJSONThrows VNull)
     = Escapes "Cannot read properties of null (reading 'message')"
  /\ tryToStringify_host toStringHost h (ToJSONThrows VUndefined)
     = Escapes "Cannot read properties of undefined (reading 'message')"
  /\ (forall error, error <> VNull -> error <> VUndefined ->
        exists m,
          get_message h error = Some m
          /\ tryToStringify_host toStringHost h (ToJSONThrows error)
             = Gives (Some ("[Error stringifying: " ++ toStringHost h m
                            ++ "]")%string))
  /\ tryToStringify_host toStringHost h SymbolValue = Gives None
  /\ (forall v, exists str,
        tryToStringify_host toStringHost h (Data v) = Gives (Some str))
  /\ ((forall s, toStringHost h (VStr s) = s) ->
      forall v,
        tryToStringify_host toStringHost h (Data v)
        = Gives (tryToStringify h v)).
Proof.
  split; [reflexivity|]. split; [reflexivity|]. split; [reflexivity|].
  split; [|split; [reflexivity|split]].
  - intros error Hn Hu.
    unfold tryToStringify_host, stringify_host, readMessage.
    destruct (get_message h error) as [m|] eqn:Hm; [now exists m|].
    destruct error; cbn [get_message] in Hm; try discriminate; try congruence.
    destruct (deref h l); discriminate.
  - intros v. unfold tryToStringify_host, stringify_host.
    pose proof (stringify_root_defined h v) as Hroot.
    destruct (stringify h v) as [[s|]|m|]; cbn [readMessage]; eauto.
    now contradiction Hroot.
  - intros Hstr v. unfold tryToStringify_host, stringify_host, tryToStringify.
    destruct (stringify h v) as [s|m|]; cbn [readMessage];
      [reflexivity | now rewrite Hstr | now rewrite Hstr].
Qed.

(* ------------------------------------------------------------------ *)
(** ** The store *)

Lemma mirrored_ext (a b : state) :
  file b = file a -> dataFile b = dataFile a -> mirrored a -> mirrored b.
Proof. unfold mirrored. intros -> ->. auto. Qed.

Lemma save_mirrored (hide : bool) (o : option Entry) (st : state) :
  mirrored st -> mirrored (save hide o st).
Proof.
  unfold save. destruct hide; [auto|]. intros _. left. reflexivity.
Qed.

(** Every append that is not suppressed, and the flush at exit, overwrites
    the file with the serialization of the whole in-memory sequence
    (whatever the file held before); a suppressed append changes neither the
    sequence nor the file. *)
Lemma save_rewrites_whole_file (st : state) (dv : Entry) :
  (dataFile (save false (Some dv) st) = dataFile st ++ [dv]
   /\ file (save false (Some dv) st) = Some (JSONText (dataFile st ++ [dv])))
  /\ (forall old,
        file (save false (Some dv) (with_store (dataFile st) old st))
        = Some (JSONText (dataFile st ++ [dv])))
  /\ (dataFile (exitFlush st) = dataFile st
      /\ file (exitFlush st) = Some (JSONText (dataFile st)))
  /\ (forall o, save true o st = st).
Proof. repeat split. Qed.

(** The monitor's entry points keep the file a mirror of the sequence,
    provided the code they call does. *)
Lemma inlineDebuggerWatch_mirrored (data : DebugData thunk) (st : state) :
  (forall s, mirrored s -> mirrored (snd (called data s))) ->
  mirrored st -> mirrored (snd (inlineDebuggerWatch data st)).
Proof.
  intros Hthunk Hst.
  assert (H0 : mirrored (ensureInitialized st)).
  { unfold ensureInitialized. destruct (isInitialized st); [exact Hst|].
    now apply (mirrored_ext st). }
  apply Hthunk in H0. unfold inlineDebuggerWatch.
  destruct (called data (ensureInitialized st)) as [c st1]. simpl in H0.
  destruct c as [v|e|]; [| |exact H0].
  - destruct (String.eqb (type data) "error").
    { destruct (onError _ v _); simpl; [now apply save_mirrored|].
      now apply (mirrored_ext st1). }
    destruct (truthy (get_then (heap_of st1) v));
      [|simpl; now apply save_mirrored].
    destruct v; try (destruct (get_then _ _); simpl;
                     first [exact H0 | now apply (mirrored_ext st1)]).
    simpl. now apply (mirrored_ext st1).
  - destruct (onError _ e _); simpl; [now apply save_mirrored|].
    now apply (mirrored_ext st1).
Qed.

Lemma runReaction_mirrored (r : Reaction) (s : settlement) (st : state) :
  mirrored st -> mirrored (snd (runReaction r s st)).
Proof.
  intros Hst. destruct s; apply save_mirrored; exact Hst.
Qed.

Lemma debugLog_mirrored (logFn : list val -> thunk)
    (d : DebugData (list val)) (st : state) :
  (forall s, mirrored s -> mirrored (snd (logFn (called d) s))) ->
  mirrored st -> mirrored (snd (debugLog logFn d st)).
Proof.
  intros Hlog Hst.
  assert (H0 : mirrored (ensureInitialized st)).
  { unfold ensureInitialized. destruct (isInitialized st); [exact Hst|].
    now apply (mirrored_ext st). }
  apply Hlog in H0. unfold debugLog.
  destruct (logFn (called d) (ensureInitialized st)) as [c st1].
  simpl in H0. destruct c; [apply save_mirrored | |]; exact H0.
Qed.

(** [clearData] removes the file and nothing else. *)
Lemma clearData_spec (st : state) :
  file (clearData st) = None
  /\ getData (clearData st) = []
  /\ dataFile (clearData st) = dataFile st.
Proof.
  unfold clearData, getData. destruct (file st) eqn:Hf; simpl; auto.
  rewrite Hf. auto.
Qed.

(** C6, the code at the failing input: every append, suppressed or not, every
    settlement and every logging call keeps the file a mirror of the
    in-memory sequence (each write is the serialization of the whole
    sequence), but [clearData] does not: after one append and a clear there
    is no file, while the sequence still holds the record. *)
Theorem clearData_breaks_mirror :
  (forall hide o st, mirrored st -> mirrored (save hide o st))
  /\ (forall data st,
        (forall s, mirrored s -> mirrored (snd (called data s))) ->
        mirrored st -> mirrored (snd (inlineDebuggerWatch data st)))
  /\ (forall r s st, mirrored st -> mirrored (snd (runReaction r s st)))
  /\ mirrored newRuntime
  /\ mirrored (snd (inlineDebuggerWatch watchA newRuntime))
  /\ file (clearData (snd (inlineDebuggerWatch watchA newRuntime))) = None
  /\ dataFile (clearData (snd (inlineDebuggerWatch watchA newRuntime)))
     = [entryA]
  /\ ~ mirrored (clearData (snd (inlineDebuggerWatch watchA newRuntime))).
Proof.
  split; [exact save_mirrored|].
  split; [exact inlineDebuggerWatch_mirrored|].
  split; [exact runReaction_mirrored|].
  split; [right; split; reflexivity|].
  split; [left; reflexivity|].
  split; [reflexivity|]. split; [reflexivity|].
  intros [H|[_ H]]; discriminate H.
Qed.

(** C7, the code at the failing input: [clearData] deletes the file, and a
    read-all right after it is empty, but the in-memory sequence keeps its
    records, so the next append writes the records from before the clear
    back to the file. *)
Theorem clearData_keeps_sequence (st : state) (dv : Entry) :
  (getData (clearData st) = []
   /\ dataFile (clearData st) = dataFile st
   /\ getData (save false (Some dv) (clearData st)) = dataFile st ++ [dv])
  /\ (getData (snd (inlineDebuggerWatch watchA newRuntime)) = [entryA]
      /\ getData (clearData (snd (inlineDebuggerWatch watchA newRuntime))) = []
      /\ getData
           (snd (inlineDebuggerWatch watchB
                   (clearData (snd (inlineDebuggerWatch watchA newRuntime)))))
         = [entryA; entryB]).
Proof.
  split.
  - destruct (clearData_spec st) as (Hf & Hg & Hd).
    repeat split; [exact Hg | exact Hd |].
    unfold getData, save. simpl. now rewrite Hd.
  - repeat split; reflexivity.
Qed.

(* ------------------------------------------------------------------ *)
(** ** The monitor *)

(** A suppressed call on a fresh runtime changes nothing at all. *)
Example suppressed_call_changes_nothing :
  inlineDebuggerWatch hiddenWatch newRuntime = (Normal (VNum 5), newRuntime).
Proof. reflexivity. Qed.

(** The test for a promise is the truthiness of a [then] property: a
    deferred computation that returns the plain object [{then: 1}] makes the
    monitor call a number, which raises. *)
Example truthy_then_property_raises :
  inlineDebuggerWatch
    (mkDebugData "expression" None (fun st => (Normal (VRef 0), st))
                 (Some 1%Z) "a.ts" None None)
    (with_heap [Obj [("then", VNum 1)]] newRuntime)
  = (Throw (VRef 1),
     with_heap [Obj [("then", VNum 1)]; Err "called.then is not a function" []]
               newRuntime).
Proof. reflexivity. Qed.

(** The deferred computation raises an error object and the record carries
    [hide: true]: the error is re-raised, and the store, asked to hide the
    record, persists nothing. *)
Lemma suppressed_error_not_persisted :
  hide hiddenThrow = Some true
  /\ fst (inlineDebuggerWatch hiddenThrow boomRuntime) = Throw (VRef 0)
  /\ dataFile (snd (inlineDebuggerWatch hiddenThrow boomRuntime)) = []
  /\ file (snd (inlineDebuggerWatch hiddenThrow boomRuntime)) = None.
Proof. repeat split; reflexivity. Qed.

(** When the raised value is [null], reading its [message] raises inside
    [onError]; the caller gets that [TypeError] in place of what was raised,
    and nothing is persisted. *)
Example thrown_null_is_replaced :
  fst (inlineDebuggerWatch nullThrow newRuntime) = Throw (VRef 0)
  /\ heap_of (snd (inlineDebuggerWatch nullThrow newRuntime))
     = [Err "Cannot read properties of null (reading 'message')" []]
  /\ dataFile (snd (inlineDebuggerWatch nullThrow newRuntime)) = [].
Proof. repeat split; reflexivity. Qed.

(** The error path of the monitor, as one equation. *)
Lemma inlineDebuggerWatch_error (data : DebugData thunk) (st st1 : state)
    (c : completion) (e m : val) :
  called data (ensureInitialized st) = (c, st1) ->
  c = Throw e \/ (c = Normal e /\ type data = "error") ->
  get_message (heap_of st1) e = Some m ->
  inlineDebuggerWatch data st
  = (Throw e,
     save (hideOf data)
          (Some (errorEntry data m (tryToStringify (heap_of st1) e))) st1).
Proof.
  intros Hrun Hc Hm. unfold inlineDebuggerWatch. rewrite Hrun.
  destruct Hc as [->|[-> Hty]].
  - unfold onError. rewrite Hm. reflexivity.
  - rewrite Hty. cbn [String.eqb]. rewrite !Ascii.eqb_refl.
    unfold onError. rewrite Hm. reflexivity.
Qed.

(** Where the error path does what it is meant to: when the deferred
    computation raises a value other than [null] and [undefined], or when the
    declared kind is "error" and it returns such a value, the monitor
    serializes the value, turns the record into an error-kind record holding
    the pair of the value's message and that text, hands it to the store, and
    raises the very same value to the caller.  The store persists the record
    (appends it and rewrites the file) unless the record carries the [hide]
    flag; the value is raised either way. *)
Lemma monitor_error_path (data : DebugData thunk) (st st1 : state)
    (c : completion) (e m : val)
    (Hrun : called data (ensureInitialized st) = (c, st1))
    (Hc : c = Throw e \/ (c = Normal e /\ type data = "error"))
    (Hm : get_message (heap_of st1) e = Some m) :
  let entry := errorEntry data m (tryToStringify (heap_of st1) e) in
  inlineDebuggerWatch data st = (Throw e, save (hideOf data) (Some entry) st1)
  /\ (hideOf data = false ->
      dataFile (snd (inlineDebuggerWatch data st)) = dataFile st1 ++ [entry]
      /\ file (snd (inlineDebuggerWatch data st))
         = Some (JSONText (dataFile st1 ++ [entry])))
  /\ (hideOf data = true -> snd (inlineDebuggerWatch data st) = st1).
Proof.
  intros entry.
  rewrite (inlineDebuggerWatch_error data st st1 c e m Hrun Hc Hm).
  fold entry. split; [reflexivity|]. split.
  - intros ->. split; reflexivity.
  - intros ->. reflexivity.
Qed.

Lemma monitor_error_path_witness :
  inlineDebuggerWatch plainThrow boomRuntime
  = (Throw (VRef 0),
     save false
       (Some (errorEntry plainThrow (VStr "boom") (Some "{}"))) boomRuntime).
Proof.
  exact (proj1 (monitor_error_path plainThrow boomRuntime boomRuntime
                  (Throw (VRef 0)) (VRef 0) (VStr "boom")
                  eq_refl (or_introl eq_refl) eq_refl)).
Defined.

(** C1, the code at the failing input
    [inlineDebuggerWatch({..., called: () => { throw null; }})]: when the
    deferred computation raises [null] or [undefined] (or returns one of
    them under the kind "error"), [onError] reads [error.message] and that
    read raises; the monitor's call of [save] and its [throw error] are never
    reached.  The caller gets a fresh [TypeError] in place of the value that
    was raised, and no record is handed to the store: sequence and file are
    as the deferred computation left them. *)
Theorem null_error_replaced_by_TypeError (data : DebugData thunk)
    (st st1 : state) (c : completion) (e : val)
    (Hrun : called data (ensureInitialized st) = (c, st1))
    (Hc : c = Throw e \/ (c = Normal e /\ type data = "error"))
    (Hnull : e = VNull \/ e = VUndefined) :
  inlineDebuggerWatch data st = raiseTypeError (messageTypeError e) st1
  /\ fst (inlineDebuggerWatch data st)
     = Throw (VRef (List.length (heap_of st1)))
  /\ fst (inlineDebuggerWatch data st) <> Throw e
  /\ deref (heap_of (snd (inlineDebuggerWatch data st)))
           (List.length (heap_of st1))
     = Err (messageTypeError e) []
  /\ dataFile (snd (inlineDebuggerWatch data st)) = dataFile st1
  /\ file (snd (inlineDebuggerWatch data st)) = file st1.
Proof.
  assert (Hmsg : forall dv, onError (heap_of st1) e dv = None).
  { intros dv. destruct Hnull as [->| ->]; reflexivity. }
  assert (Heq : inlineDebuggerWatch data st
                = raiseTypeError (messageTypeError e) st1).
  { unfold inlineDebuggerWatch. rewrite Hrun.
    destruct Hc as [->|[-> Hty]].
    - now rewrite Hmsg.
    - rewrite Hty. cbn [String.eqb]. rewrite !Ascii.eqb_refl.
      now rewrite Hmsg. }
  rewrite Heq. unfold raiseTypeError. cbn [fst snd heap_of with_heap].
  split; [reflexivity|]. split; [reflexivity|]. split.
  - destruct Hnull as [->| ->]; discriminate.
  - split; [|split; reflexivity].
    unfold deref. apply nth_middle.
Qed.

Lemma null_error_replaced_by_TypeError_witness :
  inlineDebuggerWatch nullThrow newRuntime
  = raiseTypeError (messageTypeError VNull) newRuntime.
Proof.
  exact (proj1 (null_error_replaced_by_TypeError nullThrow newRuntime
                  newRuntime (Throw VNull) VNull eq_refl
                  (or_introl eq_refl) (or_introl eq_refl))).
Defined.





Lemma runReaction_hidden (r : Reaction) (s : settlement) (st : state) :
  r_hide r = true -> snd (runReaction r s st) = st.
Proof.
  intros Hh. destruct s; unfold runReaction, onResolved, onRejected;
    rewrite Hh; reflexivity.
Qed.



(* ------------------------------------------------------------------ *)
(** ** Throw statements *)

(** A selected throw statement becomes a block of two statements: the
    monitor call, whose thunk returns the operand, and the throw itself. *)
Lemma visitThrowStatement_block (p : Path) (a : Node) :
  shapeOf (node p) = ThrowStatement a ->
  hasWorksheetComment p = true ->
  visitThrowStatement p
  = Some (t.blockStatement
            [t.expressionStatement (throwWatch p a); t.throwStatement a]).
Proof.
  intros Hs Hsel. unfold visitThrowStatement. now rewrite Hsel, Hs.
Qed.

Lemma throwWatch_runs_monitor (evalExpr : Node -> thunk) (p : Path)
    (a : Node) :
  evalInstrumented evalExpr (throwWatch p a)
  = inlineDebuggerWatch (throwData evalExpr p a).
Proof. reflexivity. Qed.

(** Running the block one call of the visitor builds: when the operand
    evaluates (twice) to a value that is no promise, the monitor call
    persists one record of kind "throw" whose outcome is the serialization
    of the first value, and then the throw statement raises the second. *)
Lemma instrumented_throw_runs (evalExpr : Node -> thunk) (p : Path)
    (a : Node) (st st1 st2 : state) (v v' : val) :
  evalExpr a (ensureInitialized st) = (Normal v, st1) ->
  truthy (get_then (heap_of st1) v) = false ->
  evalExpr a
    (save false
       (Some (mkDebugData "throw" None
                (Serialized (tryToStringify (heap_of st1) v))
                (Some (lineOf p)) (getFilePath p) None None)) st1)
  = (Normal v', st2) ->
  execNode evalExpr
    (t.blockStatement
       [t.expressionStatement (throwWatch p a); t.throwStatement a]) st
  = (Throw v', st2).
Proof.
  intros H1 Hthen H2.
  change (execNode evalExpr
            (t.blockStatement
               [t.expressionStatement (throwWatch p a); t.throwStatement a])
            st)
    with (match
             match inlineDebuggerWatch (throwData evalExpr p a) st with
             | (Normal _, st') => (Normal VUndefined, st')
             | other => other
             end
           with
           | (Normal _, st') =>
               match
                 match evalExpr a st' with
                 | (Normal x, st'') => (Throw x, st'')
                 | other => other
                 end
               with
               | (Normal _, st'') => (Normal VUndefined, st'')
               | other => other
               end
           | other => other
           end).
  unfold inlineDebuggerWatch, throwData. cbn [called type hideOf hide].
  rewrite H1. cbn [String.eqb Ascii.eqb Bool.eqb]. rewrite Hthen.
  cbv beta iota.
  unfold initialDataValue, with_called. cbn [type variable line filePath prefix hide].
  rewrite H2. reflexivity.
Qed.

(** C3, the code at the failing input
    [throw new Error("Name is required"); //?]: the visitor builds the block
    of the monitor call and the throw; running it raises an error object
    whose message is "Name is required", after exactly one record has been
    persisted; but that record has kind "throw", not "error", and its
    outcome is the text of an object without enumerable properties, in which
    the message does not occur.  (This is the block of one call of the
    visitor.  Under the traversal the throw inside it is wrapped once more,
    which puts a second record of the same kind and text, with line 0,
    before the throw; no record of kind "error" comes of it either.) *)
Theorem throw_record_is_throw_kind :
  visitThrowStatement userThrow = Some instrumentedUserThrow
  /\ fst (execNode evalNewError instrumentedUserThrow newRuntime)
     = Throw (VRef 1)
  /\ deref (heap_of (snd (execNode evalNewError instrumentedUserThrow
                            newRuntime))) 1
     = Err "Name is required" []
  /\ dataFile (snd (execNode evalNewError instrumentedUserThrow newRuntime))
     = [mkDebugData "throw" None (Serialized (Some "{}")) (Some 20%Z)
                    "user.ts" None None]
  /\ getData (snd (execNode evalNewError instrumentedUserThrow newRuntime))
     = [mkDebugData "throw" None (Serialized (Some "{}")) (Some 20%Z)
                    "user.ts" None None].
Proof. repeat split; reflexivity. Qed.

(* ================================================================== *)
(** * Further properties *)

(** ** The monitor call and the record it denotes *)

Lemma getFilePath_nonempty (p : Path) : getFilePath p <> "".
Proof.
  unfold getFilePath. destruct (filename p) as [f|]; [|discriminate].
  destruct (String.eqb_spec f ""); [discriminate | assumption].
Qed.

(** X1: the call built by [createWatchCall], once its [called] property is
    set to [() => { return e; }], runs the monitor on a record that carries
    the given kind, the node's line (0 without a location), a file path that
    is never empty ("unknown" without a file name), the variable name only
    when it is a non-empty string, no prefix and no hide flag, and whose
    deferred computation evaluates [e]. *)
Theorem createWatchCall_denotes (evalExpr : Node -> thunk) (p : Path)
    (ty : string) (variable : option string) (e : Node) :
  evalCall evalExpr
    (setCalled (createWatchCall p ty variable) (returningThunk e))
  = inlineDebuggerWatch
      (mkDebugData ty (nonEmpty variable) (evalExpr e) (Some (lineOf p))
                   (getFilePath p) None None)
  /\ getFilePath p <> ""
  /\ (loc_start_line (node p) = None -> lineOf p = 0%Z)
  /\ (filename p = None -> getFilePath p = "unknown").
Proof.
  split; [|split; [apply getFilePath_nonempty|split]].
  - unfold createWatchCall, nonEmpty.
    destruct variable as [v|]; [destruct (String.eqb v "")|]; reflexivity.
  - unfold lineOf. now intros ->.
  - unfold getFilePath. now intros ->.
Qed.

(* ------------------------------------------------------------------ *)
(** ** The return visitor *)

Lemma returnWatch_runs_monitor (evalExpr : Node -> thunk) (p : Path)
    (a : Node) :
  evalCall evalExpr (returnWatch p a)
  = inlineDebuggerWatch (returnData evalExpr p a).
Proof. reflexivity. Qed.



(* ------------------------------------------------------------------ *)
(** ** The logging visitor *)


(** X4: a call statement marked on the statement itself, as in
    [console.log(x); //?]: the statement visitor leaves the statement alone,
    and the call inside is selected through its parent's comment; the call
    visitor rewrites it when it is a [console] method call, and leaves it
    alone when its callee is a plain identifier, so a marked statement that
    calls a function of the program is instrumented by neither visitor. *)
Theorem marked_call_statement_dispatch (p : Path) (e callee : Node)
    (args : list Node) (c : Comment) (rest : string)
    (Hshape : shapeOf (node p) = ExpressionStatement e)
    (He : shapeOf e = CallExpression callee args)
    (Hmark : In c (orEmpty (leadingComments (node p))
                   ++ orEmpty (trailingComments (node p))))
    (Hc : value c = String "?" rest) :
  let child := mkPath e (Some (node p)) (filename p) in
  visitExpressionStatement p = None
  /\ hasWorksheetComment child = true
  /\ (forall object property m,
        shapeOf callee = MemberExpression object property ->
        shapeOf object = Identifier "console" ->
        shapeOf property = Identifier m ->
        visitCallExpression child
        = Some (wrapWithLog child (t.identifier ("console." ++ m)%string)
                            args))
  /\ (forall f, shapeOf callee = Identifier f ->
        visitCallExpression child = None).
Proof.
  intros child.
  assert (Hsel : hasWorksheetComment child = true).
  { unfold hasWorksheetComment. apply existsb_exists. exists c. split.
    - unfold allNodeComments, child. cbn [node parent].
      apply in_or_app. now right.
    - apply startsWith_marker. now exists rest. }
  split; [|split; [exact Hsel|split]].
  - unfold visitExpressionStatement. rewrite Hshape.
    unfold t.isCallExpression. rewrite He.
    now destruct (hasWorksheetComment p).
  - intros object property m Hcal Ho Hp. unfold visitCallExpression.
    rewrite Hsel. cbn [node child negb]. rewrite He, Hcal, Ho, Hp.
    reflexivity.
  - intros f Hf. unfold visitCallExpression.
    rewrite Hsel. cbn [node child negb]. now rewrite He, Hf.
Qed.

Lemma marked_call_statement_dispatch_witness :
  visitExpressionStatement consoleStatement = None
  /\ visitCallExpression
       (mkPath consoleCall (Some (node consoleStatement)) (Some "a.js"))
     = Some (wrapWithLog
               (mkPath consoleCall (Some (node consoleStatement))
                       (Some "a.js"))
               (t.identifier "console.log")
               [mkNode None None (Some 1%Z) (StringLiteral "x");
                mkNode None None (Some 1%Z) (NumericLiteral 1)]).
Proof.
  pose proof (marked_call_statement_dispatch consoleStatement consoleCall
                _ _ (mkComment "?") "" eq_refl eq_refl
                (or_introl eq_refl) eq_refl) as H.
  split; [exact (proj1 H)|].
  exact (proj1 (proj2 (proj2 H)) _ _ "log" eq_refl eq_refl eq_refl).
Defined.

(* ------------------------------------------------------------------ *)
(** ** More on the serializer *)

(** X6: a function whose source text holds no closing brace (every arrow
    function with an expression body that has none, such as [x => x + 1])
    matches neither pattern: it is written null at the root, and handed on
    as null by the replacer wherever it is met inside a composite. *)
Theorem braceless_function_is_null (h : heap) (src : string)
    (Hbrace : occurs "}" src = false) :
  getFn src = None /\ getArrowFn src = None
  /\ tryToStringify h (VFun src) = Some "null"
  /\ (forall cache, replacer h cache (VFun src) = (cache, VNull)).
Proof.
  assert (Hfn : getFn src = None).
  { destruct (getFn src) as [fn|] eqn:H; [|reflexivity].
    destruct (getFn_text src fn H) as [(pre & post & Hs & _) (body & Hb)].
    rewrite (closes_with_brace_occurs _ _ _ _ _ _ Hs Hb) in Hbrace.
    discriminate. }
  assert (Harrow : getArrowFn src = None).
  { destruct (getArrowFn src) as [fn|] eqn:H; [|reflexivity].
    destruct (getArrowFn_text src fn H) as [(pre & post & Hs & _) (body & Hb)].
    rewrite (closes_with_brace_occurs _ _ _ _ _ _ Hs Hb) in Hbrace.
    discriminate. }
  split; [exact Hfn|]. split; [exact Harrow|]. split.
  - unfold tryToStringify, stringify. cbn [serializeProperty replacer].
    now rewrite Hfn, Harrow.
  - intros cache. cbn [replacer]. now rewrite Hfn, Harrow.
Qed.

Lemma braceless_function_is_null_witness :
  tryToStringify [] (VFun "x => x + 1") = Some "null".
Proof.
  exact (proj1 (proj2 (proj2
           (braceless_function_is_null [] "x => x + 1" eq_refl)))).
Defined.

(* ------------------------------------------------------------------ *)
(** ** More on the monitor *)



Lemma save_appends (hide : bool) (o : option Entry) (st : state) :
  exists l, dataFile (save hide o st) = dataFile st ++ l
            /\ List.length l <= 1.
Proof.
  unfold save. destruct hide.
  - exists []. rewrite app_nil_r. auto.
  - destruct o as [dv|].
    + exists [dv]. auto.
    + exists []. cbn [dataFile with_store]. rewrite app_nil_r. auto.
Qed.

Lemma nothing_appended (st st' : state) :
  dataFile st' = dataFile st ->
  exists l, dataFile st' = dataFile st ++ l /\ List.length l <= 1.
Proof. intros ->. exists []. rewrite app_nil_r. auto. Qed.




(* ------------------------------------------------------------------ *)
(** ** The throw visitor under the traversal *)

(** X14: a throw statement marked on the statement itself is wrapped twice.
    The visitor replaces it by the block of the monitor call and a new throw
    statement; [replaceWith] hands the marker comment on to that block, so
    when the traversal comes to the statements of the block, both are
    selected through their parent: the statement of the monitor call is left
    alone (its expression is a call), but the new throw statement is
    replaced again, by a block whose monitor call carries line 0, the new
    statement having no location.  That second block inherits no comment,
    and neither of its statements is selected: the rewriting stops there. *)
Theorem throw_statement_rewritten_twice (p : Path) (a : Node) (c : Comment)
    (rest : string)
    (Hshape : shapeOf (node p) = ThrowStatement a)
    (Hmark : In c (orEmpty (leadingComments (node p))
                   ++ orEmpty (trailingComments (node p))))
    (Hc : value c = String "?" rest) :
  let b := t.blockStatement
             [t.expressionStatement (throwWatch p a); t.throwStatement a] in
  let p1 := replaceWith p b in
  let first :=
    mkPath (t.expressionStatement (throwWatch p a)) (Some (node p1))
           (filename p) in
  let inner := mkPath (t.throwStatement a) (Some (node p1)) (filename p) in
  let b2 := t.blockStatement
              [t.expressionStatement (throwWatch inner a);
               t.throwStatement a] in
  let p2 := replaceWith inner b2 in
  visitThrowStatement p = Some b
  /\ (hasWorksheetComment first = true
      /\ visitExpressionStatement first = None)
  /\ visitThrowStatement inner = Some b2
  /\ (lineOf inner = 0%Z /\ getFilePath inner = getFilePath p)
  /\ visitExpressionStatement
       (mkPath (t.expressionStatement (throwWatch inner a)) (Some (node p2))
               (filename p)) = None
  /\ visitThrowStatement
       (mkPath (t.throwStatement a) (Some (node p2)) (filename p)) = None.
Proof.
  intros b p1 first inner b2 p2.
  assert (Hstart : startsWith (value c) "?" = true).
  { apply startsWith_marker. now exists rest. }
  assert (Hsel : hasWorksheetComment p = true).
  { unfold hasWorksheetComment. apply existsb_exists. exists c.
    split; [|exact Hstart].
    unfold allNodeComments. apply in_or_app. now left. }
  assert (Hchild : forall n, hasWorksheetComment
                               (mkPath n (Some (node p1)) (filename p))
                             = true).
  { intros n. unfold hasWorksheetComment. apply existsb_exists. exists c.
    split; [|exact Hstart].
    unfold allNodeComments. cbn [parent]. apply in_or_app. right.
    unfold p1, replaceWith, b, t.blockStatement, built, inheritsComments,
      inherit.
    cbn [node leadingComments trailingComments orEmpty app]. exact Hmark. }
  split; [now apply visitThrowStatement_block|].
  split; [split; [apply Hchild|]|].
  { unfold visitExpressionStatement, first. now rewrite (Hchild _). }
  split; [apply visitThrowStatement_block; [reflexivity | apply Hchild]|].
  split; [split; reflexivity|]. split; reflexivity.
Qed.

Lemma throw_statement_rewritten_twice_witness :
  visitThrowStatement
    (mkPath (t.throwStatement userThrowOperand)
            (Some (node (replaceWith userThrow instrumentedUserThrow)))
            (Some "user.ts"))
  = Some (t.blockStatement
            [t.expressionStatement
               (throwWatch
                  (mkPath (t.throwStatement userThrowOperand) None
                          (Some "user.ts"))
                  userThrowOperand);
             t.throwStatement userThrowOperand]).
Proof.
  exact (proj1 (proj2 (proj2
           (throw_statement_rewritten_twice userThrow userThrowOperand
              (mkComment "?") "" eq_refl (or_introl eq_refl) eq_refl)))).
Defined.

(* ------------------------------------------------------------------ *)
(** ** The printing accessor *)

Section PrintDataFacts.

Variable basename : string -> string.
Variable showCalled : stored -> string.
Variable header : string.

Lemma printItem_kind (index : nat) (item : Entry) :
  (exists l, printItem basename showCalled index item = Some l)
  <-> printedKind (type item) = true.
Proof.
  unfold printItem, printedKind.
  destruct (String.eqb (type item) "variable"); [split; eauto|].
  destruct (String.eqb (type item) "expression"); [split; eauto|].
  destruct (String.eqb (type item) "log"); [split; eauto|].
  destruct (String.eqb (type item) "error"); [split; eauto|].
  split; [intros [l H]; discriminate | discriminate].
Qed.

Lemma printItems_length (data : list Entry) :
  forall index,
    List.length (printItems basename showCalled index data)
    = List.length (filter (fun item => printedKind (type item)) data).
Proof.
  induction data as [|item data IH]; intros index; [reflexivity|].
  cbn [printItems filter].
  pose proof (printItem_kind index item) as Hk.
  destruct (printItem basename showCalled index item) as [l|].
  - assert (Ht : printedKind (type item) = true) by (apply Hk; eauto).
    rewrite Ht. cbn [List.length]. now rewrite IH.
  - destruct (printedKind (type item)) eqn:Ht.
    + destruct (proj2 Hk eq_refl) as [l Hl]. discriminate.
    + apply IH.
Qed.

Lemma printItems_In (data : list Entry) :
  forall index l,
    In l (printItems basename showCalled index data)
    <-> exists k item,
          nth_error data k = Some item
          /\ printItem basename showCalled (index + k) item = Some l.
Proof.
  induction data as [|item data IH]; intros index l.
  - cbn [printItems]. split; [contradiction|].
    intros (k & it & Hn & _). destruct k; discriminate.
  - cbn [printItems]. split.
    + intros H.
      assert (Hcase : printItem basename showCalled index item = Some l
                      \/ In l (printItems basename showCalled (S index) data)).
      { destruct (printItem basename showCalled index item) as [l0|];
          [destruct H as [->|H]; auto | auto]. }
      destruct Hcase as [H0|H0].
      * exists 0, item. rewrite Nat.add_0_r. auto.
      * apply IH in H0 as (k & it & Hn & Hp).
        exists (S k), it. rewrite Nat.add_succ_r. auto.
    + intros (k & it & Hn & Hp). destruct k as [|k].
      * injection Hn as <-. rewrite Nat.add_0_r in Hp. rewrite Hp. now left.
      * assert (H0 : In l (printItems basename showCalled (S index) data)).
        { apply IH. exists k, it. rewrite Nat.add_succ_r in Hp. auto. }
        destruct (printItem basename showCalled index item); [now right|auto].
Qed.

(** The loop of [printData], said as one expression: every record with its
    position, in store order, gives its line or nothing. *)
Lemma printItems_numbered (data : list Entry) :
  forall index,
    printItems basename showCalled index data
    = flat_map (fun ki => optionToList
                            (printItem basename showCalled (fst ki) (snd ki)))
               (numbered index data).
Proof.
  induction data as [|item data IH]; intros index; [reflexivity|].
  unfold numbered. cbn [printItems List.length seq combine flat_map fst snd].
  fold (numbered (S index) data). rewrite <- IH.
  now destruct (printItem basename showCalled index item).
Qed.

(** A record's line stands between the lines of the records before it and
    the lines of the records after it. *)
Lemma printItems_split (before : list Entry) (item : Entry)
    (after : list Entry) :
  forall index,
    printItems basename showCalled index (before ++ item :: after)
    = printItems basename showCalled index before
      ++ optionToList
           (printItem basename showCalled (index + List.length before) item)
      ++ printItems basename showCalled (S (index + List.length before)) after.
Proof.
  induction before as [|b before IH]; intros index.
  - cbn [printItems app List.length]. rewrite Nat.add_0_r.
    now destruct (printItem basename showCalled index item).
  - cbn [printItems app List.length]. rewrite (IH (S index)).
    replace (S index + List.length before)
      with (index + S (List.length before)) by lia.
    now destruct (printItem basename showCalled index b).
Qed.

End PrintDataFacts.

(** X12: [printData] prints the header first and then, in store order, one
    line for each persisted record of kind "variable", "expression", "log"
    or "error", and nothing for a record of any other kind (so none for the
    "return" and "throw" records the transform produces): the lines after
    the header are exactly the lines of the printed records, taken in the
    order of the store, and a line that comes later in the output belongs to
    a record that comes later in the store.  The number a line starts with
    is the record's position in the store plus one, counting the records
    that are not printed. *)
Theorem printData_lines (basename : string -> string)
    (showCalled : stored -> string) (header : string) (st : state) :
  printData basename showCalled header st
  = header
    :: flat_map (fun ki => optionToList
                             (printItem basename showCalled (fst ki) (snd ki)))
                (numbered 0 (getData st))
  /\ nth_error (printData basename showCalled header st) 0 = Some header
  /\ (forall before item after,
        getData st = before ++ item :: after ->
        tl (printData basename showCalled header st)
        = printItems basename showCalled 0 before
          ++ optionToList
               (printItem basename showCalled (List.length before) item)
          ++ printItems basename showCalled (S (List.length before)) after)
  /\ List.length (printData basename showCalled header st)
     = 1 + List.length
             (filter (fun item => printedKind (type item)) (getData st))
  /\ (forall k item,
        (exists l, printItem basename showCalled k item = Some l)
        <-> printedKind (type item) = true)
  /\ (forall k item l,
        printItem basename showCalled k item = Some l ->
        startsWith l (numberToString (Z.of_nat k + 1) ++ ". ")%string = true)
  /\ printedKind "return" = false /\ printedKind "throw" = false.
Proof.
  split; [|split; [reflexivity|split; [|split; [|split; [|split]]]]].
  - unfold printData. now rewrite printItems_numbered.
  - intros before item after Hdata. unfold printData. cbn [tl].
    rewrite Hdata. exact (printItems_split basename showCalled before item after 0).
  - unfold printData. cbn [List.length]. now rewrite printItems_length.
  - intros k item. apply printItem_kind.
  - intros k item l H.
    assert (Hpre : forall a b, startsWith (a ++ b)%string a = true).
    { intros a b. unfold startsWith. apply String.prefix_correct.
      induction a as [|c a IH]; [now destruct b|].
      cbn [String.length append substring]. now rewrite IH. }
    assert (Hnum : forall n rest,
              startsWith (n ++ ". " ++ rest)%string (n ++ ". ")%string = true).
    { intros n rest. rewrite <- (sapp_assoc n ". " rest). apply Hpre. }
    unfold printItem in H.
    destruct (String.eqb (type item) "variable");
      [injection H as <-; apply Hnum|].
    destruct (String.eqb (type item) "expression");
      [injection H as <-; apply Hnum|].
    destruct (String.eqb (type item) "log").
    { injection H as <-.
      exact (Hnum _ ("[LOG] " ++ showCalled (called item)
                     ++ lineInfo (line item)
                     ++ fileInfo basename (filePath item))%string). }
    destruct (String.eqb (type item) "error"); [|discriminate].
    injection H as <-.
    exact (Hnum _ ("[ERROR] " ++ showCalled (called item)
                   ++ lineInfo (line item)
                   ++ fileInfo basename (filePath item))%string).
  - split; reflexivity.
Qed.

(* ------------------------------------------------------------------ *)
(** ** Serialization and later allocations *)

Lemma serializeAll_ext_on (P : val -> Prop)
    (rec1 rec2 : list loc -> val -> sres (list loc * option string)) :
  (forall c v, P v -> rec2 c v = rec1 c v) ->
  forall vs c, Forall P vs ->
  serializeAll rec2 c vs = serializeAll rec1 c vs.
Proof.
  intros Hext. induction vs as [|v vs IH]; intros c Hall; [reflexivity|].
  inversion Hall as [|? ? Hv Hvs]; subst. cbn [serializeAll].
  rewrite (Hext c v Hv).
  destruct (rec1 c v) as [[c1 s]| |]; try reflexivity.
  now rewrite (IH c1 Hvs).
Qed.

Lemma deref_app (h h' : heap) (l : loc) :
  l < List.length h -> deref (h ++ h') l = deref h l.
Proof. intros Hl. unfold deref. now apply app_nth1. Qed.

Lemma closedHeap_deref (h : heap) (l : loc) :
  closedHeap h -> l < List.length h ->
  Forall (closedVal h) (objectValues (deref h l)).
Proof.
  intros Hh Hl. unfold closedHeap in Hh. rewrite Forall_forall in Hh.
  apply Hh. unfold deref. now apply nth_In.
Qed.

Lemma serializeProperty_app (h h' : heap) :
  closedHeap h ->
  forall fuel c st v,
    closedVal h v ->
    serializeProperty fuel (h ++ h') c st v = serializeProperty fuel h c st v.
Proof.
  intros Hh. induction fuel as [|fuel IH]; intros c st v Hv; [reflexivity|].
  cbn [serializeProperty].
  assert (Hrep : replacer (h ++ h') c v = replacer h c v).
  { destruct v; try reflexivity. cbn [replacer get_then].
    cbn [closedVal] in Hv. now rewrite deref_app. }
  rewrite Hrep. destruct (replacer h c v) as [c1 v1] eqn:Hr.
  destruct v1 as [| |[|]| | | | |l|]; try reflexivity.
  apply replacer_ref in Hr as (-> & _ & ->). cbn [closedVal] in Hv.
  destruct (inCache l st); [reflexivity|].
  rewrite (deref_app h h' l Hv).
  pose proof (closedHeap_deref h l Hh Hv) as Hkids.
  destruct (deref h l) as [props|elems|msg props]; cbn [objectValues] in Hkids;
    rewrite (serializeAll_ext_on (closedVal h)
               (fun c x => serializeProperty fuel h c (st ++ [l]) x)
               (fun c x => serializeProperty fuel (h ++ h') c (st ++ [l]) x)
               (fun a x Hx => IH a (st ++ [l]) x Hx) _ _ Hkids);
    reflexivity.
Qed.

Lemma unvisited_empty (h : heap) : unvisited h [] = List.length h.
Proof.
  unfold unvisited. simpl.
  assert (Hf : forall l : list loc,
             List.length (filter (fun _ => true) l) = List.length l)
    by (induction l; simpl; congruence).
  now rewrite Hf, length_seq.
Qed.

(** X13: in a heap whose objects refer only to objects of the heap, the text
    written for a value of that heap does not change when further objects
    are allocated after it (as the monitor does for a [TypeError], or the
    program between a call and a settlement). *)
Theorem tryToStringify_stable_under_allocation (h h' : heap) (v : val)
    (Hheap : closedHeap h) (Hval : closedVal h v) :
  stringify (h ++ h') v = stringify h v
  /\ tryToStringify (h ++ h') v = tryToStringify h v.
Proof.
  assert (Hs : stringify (h ++ h') v = stringify h v).
  { unfold stringify.
    rewrite (serializeProperty_app h h' Hheap _ [] [] v Hval).
    rewrite (serializeProperty_more_fuel h (S (List.length h))
               (S (List.length (h ++ h'))) [] [] v).
    - reflexivity.
    - rewrite length_app. lia.
    - apply serializeProperty_enough. rewrite unvisited_empty. lia. }
  split; [exact Hs|]. unfold tryToStringify. now rewrite Hs.
Qed.

Lemma tryToStringify_stable_under_allocation_witness :
  tryToStringify
    ([Obj [("name", VStr "a"); ("self", VRef 0)]] ++ [Err "later" []])
    (VRef 0)
  = tryToStringify [Obj [("name", VStr "a"); ("self", VRef 0)]] (VRef 0).
Proof.
  refine (proj2 (tryToStringify_stable_under_allocation
                   [Obj [("name", VStr "a"); ("self", VRef 0)]]
                   [Err "later" []] (VRef 0) _ _)).
  - repeat constructor.
  - cbn. lia.
Defined.
